(** * Streaming transcription pipeline: chunk assembly, speaker
      identification and per-turn emission

    A shallow embedding of the three capture / diarize / identify scripts:

    - [capture_and_translate.py]   (module [Capture]): frame accumulation,
      fixed-window chunk extraction and the guarded translation request;
    - [local_file_diarize_transcribe.py] (modules [Registry], [FilePipeline]):
      enrollment directory, nearest-profile identification, normalisation;
    - [local_realtime_transcribe.py] (module [Realtime]): per-chunk
      diarize / filter / transcribe loop.

    External collaborators (the diarizer, the voice encoder, Whisper, the
    Gradio endpoint, [os.listdir], the wall clock) are oracles: parameters
    whose every behaviour is quantified over.  Python [float]s are binary64
    and are embedded as Rocq's primitive floats, so comparisons against the
    threshold, NaN included, are the machine's. *)

From Stdlib Require Import ZArith QArith Floats Lia.
From stdpp Require Import base list sorting strings gmap.

Set Warnings "-abstract-large-number".

(* ================================================================== *)
(** * Python helpers shared by the scripts *)
(* ================================================================== *)

Module Py.

(** Exceptions are values: a call either returns or raises. *)
Inductive result (A : Type) : Type :=
| Ok (a : A)
| Raise (msg : string).
Arguments Ok {A} a.
Arguments Raise {A} msg.

#[global] Instance result_ret : MRet result := fun A a => Ok a.
#[global] Instance result_bind : MBind result := fun A B k r =>
  match r with
  | Ok a => k a
  | Raise msg => Raise msg
  end.

(** [float(n)] for a Python [int]: the nearest binary64. *)
Definition float_of_int (n : Z) : float :=
  SF2Prim (binary_normalize prec emax n 0 false).

(** [phrase in result] on [str]: substring test. *)
Definition contains (phrase text : string) : bool :=
  match String.index 0 phrase text with
  | Some _ => true
  | None => false
  end.

(** [s.endswith(suffix)]. *)
Definition endswith (s suffix : string) : bool :=
  let n := String.length s in
  let k := String.length suffix in
  (k <=? n)%nat && String.eqb (String.substring (n - k) k s) suffix.

(** [s[:-k]] for a non-negative literal [k]. *)
Definition drop_last (k : nat) (s : string) : string :=
  String.substring 0 (String.length s - k) s.

(** Index normalisation of [a[i:j]]: a negative index counts from the
    end, then both ends are clamped to [0, len]. *)
Definition clamp_index (len i : Z) : Z :=
  let i' := if (i <? 0)%Z then (i + len)%Z else i in
  Z.max 0 (Z.min len i').

(** [a[i:j]] on a one-dimensional array. *)
Definition slice {A} (a : list A) (i j : Z) : list A :=
  let len := Z.of_nat (length a) in
  let lo := clamp_index len i in
  let hi := clamp_index len j in
  take (Z.to_nat (hi - lo)) (drop (Z.to_nat lo) a).

(** [int(x)] on a binary64: truncation toward zero; NaN and the
    infinities raise ([ValueError], [OverflowError]). *)
Definition int_of_float (x : float) : result Z :=
  match Prim2SF x with
  | S754_zero _ => Ok 0%Z
  | S754_finite s m e =>
      let mag := if (0 <=? e)%Z
                 then Z.shiftl (Z.pos m) e
                 else Z.shiftr (Z.pos m) (- e) in
      Ok (if s then (- mag)%Z else mag)
  | S754_infinity _ => Raise "OverflowError"
  | S754_nan => Raise "ValueError"
  end.

End Py.

(* ================================================================== *)
(** * capture_and_translate.py *)
(* ================================================================== *)

Module Capture.

Definition SAMPLE_RATE : nat := 16000.
Definition CHUNK_DURATION : nat := 5.
Definition CHUNK_SAMPLES : nat := SAMPLE_RATE * CHUNK_DURATION.

(** The one filtered phrase of the script, as its UTF-8 bytes. *)
Definition FILTERED_PHRASES : list string :=
  ["أنا مش عارفة، أنا مش عارفة، أنا مش عارفة"%string].

(** [should_display_result]: an empty result is not shown, nor one that
    contains a filtered phrase. *)
Definition should_display_result (result : string) : bool :=
  if String.eqb result "" then false
  else negb (existsb (fun phrase => Py.contains phrase result) FILTERED_PHRASES).

Section MainLoop.
(** One row of the [(n, CHANNELS)] float32 array. *)
Context {A : Type}.

(** The world outside the loop, indexed by [chunk_idx]: does
    [torchaudio.save] succeed, what does [client.predict] return (or
    does it raise), and the [%H%M%S] stamp of the clock. *)
Record Env := {
  save_ok : nat -> bool;
  predict : nat -> list A -> Py.result string;
  now : nat -> string;
}.

(** What the loop writes to standard output about a chunk: the line
    [[chunk_idx] timestamp: result], or [API request error: e].  Progress
    banners carry no data and are left out. *)
Inductive Line :=
| Shown (timestamp result : string)
| ApiError (e : string).

Record State := {
  buffer : list A;
  chunk_idx : nat;
  (** the windows cut so far, each with its sequence number *)
  emitted : list (nat * list A);
  (** the lines written so far, each with the chunk it is about *)
  printed : list (nat * Line);
}.

Inductive Outcome :=
| Waiting (st : State)      (* blocked in [q.get()] *)
| Fatal (st : State)        (* outer [except Exception]: [main] returns *)
| Diverges.                 (* fuel exhausted *)

Variable chunk_samples : nat.
Variable env : Env.

(** The [try] around the request (lines 107-119): the result is shown
    when it passes the filter; any exception is reported and dropped. *)
Definition request (idx : nat) (chunk : list A) (out : list (nat * Line))
    : list (nat * Line) :=
  match predict env idx chunk with
  | Py.Ok result =>
      if should_display_result result
      then out ++ [(idx, Shown (now env idx) result)]
      else out
  | Py.Raise e => out ++ [(idx, ApiError e)]
  end.

(** [while len(buffer) >= CHUNK_SAMPLES: ...] (lines 93-130).  The chunk
    is cut, saved (outside the inner [try], so a failure there reaches the
    outer handler), sent, and the temporary file removed (errors ignored). *)
Fixpoint process_complete_chunks (fuel : nat) (st : State) : Outcome :=
  match fuel with
  | O => Diverges
  | S fuel' =>
      if (chunk_samples <=? length (buffer st))%nat then
        let chunk := take chunk_samples (buffer st) in
        let rest := drop chunk_samples (buffer st) in
        let idx := chunk_idx st in
        let cut := {| buffer := rest; chunk_idx := idx;
                      emitted := emitted st ++ [(idx, chunk)];
                      printed := printed st |} in
        if save_ok env idx then
          process_complete_chunks fuel'
            {| buffer := rest; chunk_idx := S idx;
               emitted := emitted cut;
               printed := request idx chunk (printed st) |}
        else Fatal cut
      else Waiting st
  end.

(** [while True: audio_chunk = q.get(); buffer = concatenate(...)]
    over the frames the callback has queued so far. *)
Fixpoint feed (fuel : nat) (frames : list (list A)) (st : State) : Outcome :=
  match frames with
  | [] => Waiting st
  | audio_chunk :: frames' =>
      let st' := {| buffer := buffer st ++ audio_chunk; chunk_idx := chunk_idx st;
                    emitted := emitted st; printed := printed st |} in
      match process_complete_chunks fuel st' with
      | Waiting st'' => feed fuel frames' st''
      | other => other
      end
  end.

Definition init : State :=
  {| buffer := []; chunk_idx := 0; emitted := []; printed := [] |}.

(** [main]: the stream is opened first; failing to open it is caught by
    the outer handler before anything is read. *)
Definition main (stream_opens : bool) (fuel : nat) (frames : list (list A)) : Outcome :=
  if stream_opens then feed fuel frames init else Fatal init.

(** ** Vocabulary of the statements about the loop *)

(** All samples emitted so far, in sequence order. *)
Definition samples_of (chunks : list (nat * list A)) : list A :=
  concat (map snd chunks).

(** The state accounts for [input]: the windows, then the leftover, spell
    the input; every window is full; sequence numbers count from zero. *)
Definition assembled (input : list A) (st : State) : Prop :=
  samples_of (emitted st) ++ buffer st = input /\
  Forall (fun c => length c.2 = chunk_samples) (emitted st) /\
  map fst (emitted st) = seq 0 (chunk_idx st).

End MainLoop.

Arguments Env : clear implicits.
Arguments State : clear implicits.
Arguments Outcome : clear implicits.

(** Two worlds that differ at most in what the endpoint does with chunk
    [k]. *)
Definition agree_except {A} (k : nat) (env env' : Env A) : Prop :=
  (forall i, save_ok env i = save_ok env' i) /\
  (forall i, now env i = now env' i) /\
  (forall i chunk, i <> k -> predict env i chunk = predict env' i chunk).

(** The lines about chunks other than [k], and the results shown for [k]. *)
Definition lines_except (k : nat) (out : list (nat * Line)) : list (nat * Line) :=
  List.filter (fun p => negb (Nat.eqb p.1 k)) out.

Definition results_for (k : nat) (out : list (nat * Line)) : list (string * string) :=
  omap (fun p => match p with
                 | (i, Shown timestamp result) =>
                     if Nat.eqb i k then Some (timestamp, result) else None
                 | (_, ApiError _) => None
                 end) out.

(** Two states that differ at most in the lines about chunk [k]. *)
Definition same_except {A} (k : nat) (s s' : State A) : Prop :=
  buffer s = buffer s' /\ chunk_idx s = chunk_idx s' /\
  emitted s = emitted s' /\
  lines_except k (printed s) = lines_except k (printed s').

(** The state a run has reached, whether it waits or has ended. *)
Definition final {A} (o : Outcome A) : option (State A) :=
  match o with
  | Waiting st | Fatal st => Some st
  | Diverges => None
  end.

(** Two runs end the same way, in states alike outside chunk [k]. *)
Definition same_run {A} (k : nat) (o o' : Outcome A) : Prop :=
  match o, o' with
  | Waiting s, Waiting s' | Fatal s, Fatal s' => same_except k s s'
  | Diverges, Diverges => True
  | _, _ => False
  end.

End Capture.

(** Small runs used to exercise the statements: windows of three samples,
    an endpoint that answers with a fixed text, and one that fails on
    chunk 1 only. *)
Module CaptureExamples.
Import Capture.

Definition frames : list (list nat) := [[1; 2]; [3; 4; 5; 6]; [7]].

Definition env_ok : Env nat :=
  {| save_ok := fun _ => true;
     predict := fun _ _ => Py.Ok "hello"%string;
     now := fun _ => "120000"%string |}.

Definition env_fail1 : Env nat :=
  {| save_ok := fun _ => true;
     predict := fun i _ => if Nat.eqb i 1 then Py.Raise "timeout"%string
                           else Py.Ok "hello"%string;
     now := fun _ => "120000"%string |}.

(** The disk takes the first chunk file and no other. *)
Definition env_disk_full : Env nat :=
  {| save_ok := fun i => Nat.eqb i 0;
     predict := fun _ _ => Py.Ok "hello"%string;
     now := fun _ => "120000"%string |}.

(** The same seven samples, framed differently. *)
Definition frames_again : list (list nat) := [[1]; [2; 3; 4; 5]; []; [6; 7]].

End CaptureExamples.

(* ================================================================== *)
(** * local_file_diarize_transcribe.py: enrollment and identification *)
(* ================================================================== *)

Module Registry.

Definition ENROLL_DIR : string := "enrolled_speakers".

(** The default of [identify_speaker]'s [threshold]: the binary64 nearest
    to the literal [0.7]. *)
Definition DEFAULT_THRESHOLD : float := 0x1.6666666666666p-1%float.

(** An insertion-ordered [dict] with [str] keys: [d[k] = v] overwrites in
    place when [k] is present and appends otherwise. *)
Fixpoint dict_set {V} (k : string) (v : V) (d : list (string * V)) : list (string * V) :=
  match d with
  | [] => [(k, v)]
  | (k', v') :: d' =>
      if String.eqb k' k then (k, v) :: d' else (k', v') :: dict_set k v d'
  end.

(** [np.argmin] on a one-dimensional float array: the index of the first
    occurrence of the minimum, a NaN counting as minimal.  The scan keeps
    the running minimum [mp] and replaces it when [not (x >= mp)]. *)
Fixpoint argmin_from (mp : float) (min_ind i : nat) (ip : list float) : nat :=
  match ip with
  | [] => min_ind
  | x :: ip' =>
      if negb (mp <=? x)%float then
        if is_nan x then i else argmin_from x i (S i) ip'
      else argmin_from mp min_ind (S i) ip'
  end.

Definition argmin (a : list float) : nat :=
  match a with
  | [] => 0
  | x :: a' => if is_nan x then 0 else argmin_from x 0 1 a'
  end.

Section Speakers.
(** An embedding vector ([np.ndarray] of the encoder's dimension). *)
Context {Emb : Type}.

(** [cdist([u], [v], metric="cosine")[0][0]]: SciPy's cosine distance. *)
Variable cdist_cosine : Emb -> Emb -> float.

(** The directory [ENROLL_DIR]: absent, or a map from file name to the
    array stored in it. *)
Definition enroll_dir : Type := option (gmap string Emb).

(** [enroll_speaker], after the encoder has produced [embedding]:
    [os.makedirs(exist_ok=True)], then [np.save] to [<name>.npy]. *)
Definition enroll_speaker (name : string) (embedding : Emb) (dir : enroll_dir) : enroll_dir :=
  let files : gmap string Emb := default ∅ dir in
  Some (<[(name +:+ ".npy")%string := embedding]> files).

(** [load_enrolled_speakers]; [listing] is what [os.listdir] returns, in
    the order the file system chose.  [np.load] of a listed file that is
    not there raises; a file that is there is taken to hold an array (a
    file [np.load] cannot read is outside the model, so nothing below says
    when the load succeeds). *)
Fixpoint load_files (files : gmap string Emb) (listing : list string)
    (speakers : list (string * Emb)) : Py.result (list (string * Emb)) :=
  match listing with
  | [] => Py.Ok speakers
  | fname :: listing' =>
      if Py.endswith fname ".npy" then
        match files !! fname with
        | Some embedding =>
            load_files files listing' (dict_set (Py.drop_last 4 fname) embedding speakers)
        | None => Py.Raise "FileNotFoundError"
        end
      else load_files files listing' speakers
  end.

Definition load_enrolled_speakers (dir : enroll_dir) (listing : list string)
    : Py.result (list (string * Emb)) :=
  match dir with
  | None => Py.Ok []
  | Some files => load_files files listing []
  end.

(** The row [cdist([embedding], embeddings, metric="cosine")[0]], where
    [embeddings] stacks [enrolled_speakers[n]] for [n] in key order: the
    dict's values in its own order. *)
Definition distances (embedding : Emb) (enrolled_speakers : list (string * Emb)) : list float :=
  map (fun p => cdist_cosine embedding p.2) enrolled_speakers.

(** [identify_speaker(embedding, enrolled_speakers, threshold)]. *)
Definition identify_speaker (embedding : Emb) (enrolled_speakers : list (string * Emb))
    (threshold : float) : string :=
  match enrolled_speakers with
  | [] => "Unknown"
  | _ :: _ =>
      let names := map fst enrolled_speakers in
      let dists := distances embedding enrolled_speakers in
      let min_idx := argmin dists in
      if (nth min_idx dists nan <? threshold)%float
      then nth min_idx names ""%string
      else "Unknown"
  end.

(** The profile [np.argmin] points at: [names[min_idx]] with its
    embedding. *)
Definition selected (embedding : Emb) (enrolled_speakers : list (string * Emb))
    : option (string * Emb) :=
  enrolled_speakers !! argmin (distances embedding enrolled_speakers).

(** ** The tie rule in the spec's words *)

(** [history] lists the enrollments, oldest first. *)
Definition enroll_all (history : list (string * Emb)) : enroll_dir :=
  foldl (fun dir p => enroll_speaker p.1 p.2 dir) None history.

Definition enrolled_before (history : list (string * Emb)) (a b : string) : Prop :=
  exists i j ea eb,
    i < j /\ history !! i = Some (a, ea) /\ history !! j = Some (b, eb).

(** "Ties resolve to the profile enrolled earliest": of two profiles at the
    same, minimum and accepted, distance from the turn, the one enrolled
    later is never the answer, in whatever order the directory is listed. *)
Definition earliest_enrolled_wins : Prop :=
  forall (history : list (string * Emb)) (files : gmap string Emb)
         (listing : list string) (reg : list (string * Emb))
         (embedding : Emb) (threshold : float) (a b : string) (ea eb : Emb),
    enroll_all history = Some files ->
    listing ≡ₚ (map_to_list files).*1 ->
    load_enrolled_speakers (Some files) listing = Py.Ok reg ->
    (a, ea) ∈ reg -> (b, eb) ∈ reg -> a <> b ->
    (cdist_cosine embedding ea =? cdist_cosine embedding eb)%float = true ->
    (forall p, p ∈ reg ->
       (cdist_cosine embedding p.2 <? cdist_cosine embedding eb)%float = false) ->
    (cdist_cosine embedding eb <? threshold)%float = true ->
    enrolled_before history a b ->
    identify_speaker embedding reg threshold <> b.

End Speakers.

(** ** Vocabulary of the statements about [np.argmin] *)

(** What the scan knows after reading [pre]: [mp] is a number, stands at
    [min_ind], is below or equal to everything read and strictly below
    everything before [min_ind]. *)
Definition running_min (pre : list float) (mp : float) (min_ind : nat) : Prop :=
  pre !! min_ind = Some mp /\ is_nan mp = false /\
  (forall j x, pre !! j = Some x -> (mp <=? x)%float = true) /\
  (forall j x, j < min_ind -> pre !! j = Some x -> (mp <? x)%float = true).

(** Index [r] is a legitimate answer for [a]: a NaN, or the first
    occurrence of a least element. *)
Definition selects (a : list float) (r : nat) : Prop :=
  exists m, a !! r = Some m /\ (is_nan m = true \/ running_min a m r).

End Registry.

(** Profiles used to exercise the statements.  [cosine] is the textbook
    [1 - u.v / (|u| |v|)] on binary64 lists, standing in for SciPy. *)
Module RegistryExamples.
Import Registry.
Local Open Scope float_scope.

Fixpoint dot (u v : list float) : float :=
  match u, v with
  | x :: u', y :: v' => x * y + dot u' v'
  | _, _ => 0
  end.

Definition cosine (u v : list float) : float :=
  1 - dot u v / (sqrt (dot u u) * sqrt (dot v v)).

Definition east : list float := [1; 0].
Definition north : list float := [0; 1].

Definition registry : list (string * list float) :=
  [("Alice"%string, east); ("Bob"%string, north)].

(** Bob is enrolled first, Alice second, from the same recording. *)
Definition twins_history : list (string * list float) :=
  [("Bob"%string, east); ("Alice"%string, east)].

Definition twins_files : gmap string (list float) :=
  <[ "Alice.npy"%string := east ]> (<[ "Bob.npy"%string := east ]> ∅).

Definition twins_listing : list string := ["Alice.npy"%string; "Bob.npy"%string].

Definition twins_registry : list (string * list float) :=
  [("Alice"%string, east); ("Bob"%string, east)].

(** The same two profiles as the directory might list them another day,
    and a registry in which one enrolled vector is all zeros. *)
Definition registry_reversed : list (string * list float) :=
  [("Bob"%string, north); ("Alice"%string, east)].

Definition registry_with_zero : list (string * list float) :=
  [("Alice"%string, east); ("Mute"%string, [0; 0]); ("Bob"%string, north)].

End RegistryExamples.

(* ================================================================== *)
(** * Diarizer output and the sample window of a turn *)
(* ================================================================== *)

Module Diarization.

(** One item of [diarization.itertracks(yield_label=True)]: the turn's
    bounds in seconds from the start of the audio, and the cluster label. *)
Record Turn := {
  turn_start : float;
  turn_end : float;
  turn_speaker : string;
}.

(** [start = int(turn.start * sr); end = int(turn.end * sr);
     segment = audio[start:end]]. *)
Definition turn_segment {A} (audio : list A) (sr : Z) (turn : Turn) : Py.result (list A) :=
  start ← Py.int_of_float (turn_start turn * Py.float_of_int sr)%float;
  end_ ← Py.int_of_float (turn_end turn * Py.float_of_int sr)%float;
  mret (Py.slice audio start end_).

(** What [whisper_model.transcribe] returns, as far as it is read. *)
Record Transcription := {
  whisper_text : string;
  whisper_language : string;
}.

End Diarization.

(* ================================================================== *)
(** * local_file_diarize_transcribe.py: the file pipeline *)
(* ================================================================== *)

Module FilePipeline.
Import Diarization.

(** ** 16-bit PCM and binary32 *)

(** Reduction of an integer to [np.int16]. *)
Definition wrap16 (z : Z) : Z := ((z + 32768) mod 65536 - 32768)%Z.

(** [np.abs] on an [int16] array: the magnitude, reduced to [int16]. *)
Definition np_abs (x : Z) : Z := wrap16 (Z.abs x).

(** [np.max] of a non-empty array. *)
Definition np_max (x : Z) (xs : list Z) : Z := foldl Z.max x xs.

(** binary32 values, by their IEEE 754 description. *)
Definition prec32 : Z := 24.
Definition emax32 : Z := 128.
Definition f32_of_int (z : Z) : spec_float := binary_normalize prec32 emax32 z 0 false.
Definition f32_div : spec_float -> spec_float -> spec_float := SFdiv prec32 emax32.

(** What [wavfile.read] returns for 16-bit PCM: one column, or one row
    per sample with a column per channel. *)
Inductive wav_data :=
| Mono (samples : list Z)
| Multi (rows : list (list Z)).

(** [if audio.ndim > 1: audio = audio[:, 0]]. *)
Definition first_channel (audio : wav_data) : list Z :=
  match audio with
  | Mono samples => samples
  | Multi rows => map (fun row => nth 0 row 0%Z) rows
  end.

(** The divisor [np.max(np.abs(audio))]; [np.max] of an empty array raises. *)
Definition peak (audio : list Z) : Py.result Z :=
  match map np_abs audio with
  | [] => Py.Raise "ValueError"
  | a :: rest => Py.Ok (np_max a rest)
  end.

(** [audio.astype(np.float32) / np.max(np.abs(audio))].  A zero divisor
    raises nothing: NumPy warns and stores infinities and NaNs. *)
Definition normalize (audio : list Z) : Py.result (list spec_float) :=
  m ← peak audio;
  mret (map (fun x => f32_div (f32_of_int x) (f32_of_int m)) audio).

(** ** The loop over turns *)

(** A printed line [[speaker_name] (language): text]. *)
Record Line := {
  line_speaker : string;
  line_language : string;
  line_text : string;
}.

Section Pipeline.
Context {Emb : Type}.
Variable cdist_cosine : Emb -> Emb -> float.
(** [encoder.embed_utterance], [whisper_model.transcribe], [str.strip]. *)
Variable embed_utterance : list spec_float -> Py.result Emb.
Variable transcribe : list spec_float -> Py.result Transcription.
Variable strip : string -> string.

(** The loop prints as it goes, so what has been printed survives an
    exception raised later: the loop returns the lines printed together
    with the exception that ended it, if any. *)
Fixpoint process_turns (audio : list spec_float) (sr : Z)
    (enrolled_speakers : list (string * Emb)) (turns : list Turn)
    (out : list Line) : list Line * option string :=
  match turns with
  | [] => (out, None)
  | turn :: turns' =>
      match turn_segment audio sr turn with
      | Py.Raise e => (out, Some e)
      | Py.Ok segment =>
          if (Z.of_nat (length segment) <? sr)%Z then
            process_turns audio sr enrolled_speakers turns' out
          else
            match embed_utterance segment with
            | Py.Raise e => (out, Some e)
            | Py.Ok embedding =>
                let speaker_name :=
                  Registry.identify_speaker cdist_cosine embedding enrolled_speakers
                    Registry.DEFAULT_THRESHOLD in
                match transcribe segment with
                | Py.Raise e => (out, Some e)
                | Py.Ok result =>
                    process_turns audio sr enrolled_speakers turns'
                      (out ++ [{| line_speaker := speaker_name;
                                  line_language := whisper_language result;
                                  line_text := strip (whisper_text result) |}])
                end
            end
      end
  end.

(** [process_audio_file]: the registry is loaded, the file diarized and
    read ([sr], [audio]), the samples normalised, the turns processed. *)
Definition process_audio_file (dir : Registry.enroll_dir) (listing : list string)
    (diarization : Py.result (list Turn)) (sr : Z) (audio : wav_data)
    : list Line * option string :=
  match Registry.load_enrolled_speakers dir listing with
  | Py.Raise e => ([], Some e)
  | Py.Ok enrolled_speakers =>
      match diarization with
      | Py.Raise e => ([], Some e)
      | Py.Ok turns =>
          match normalize (first_channel audio) with
          | Py.Raise e => ([], Some e)
          | Py.Ok samples => process_turns samples sr enrolled_speakers turns []
          end
      end
  end.

(** ** Vocabulary of the statements about the loop *)

(** What one turn prints when nothing raises. *)
Definition printed_for (audio : list spec_float) (sr : Z)
    (enrolled_speakers : list (string * Emb)) (turn : Turn) : option Line :=
  match turn_segment audio sr turn with
  | Py.Ok segment =>
      if (Z.of_nat (length segment) <? sr)%Z then None
      else match embed_utterance segment, transcribe segment with
           | Py.Ok embedding, Py.Ok result =>
               Some {| line_speaker :=
                         Registry.identify_speaker cdist_cosine embedding
                           enrolled_speakers Registry.DEFAULT_THRESHOLD;
                       line_language := whisper_language result;
                       line_text := strip (whisper_text result) |}
           | _, _ => None
           end
  | Py.Raise _ => None
  end.

(** The turn is cut without error, and the encoder and Whisper answer if
    they are asked. *)
Definition turn_goes_through (audio : list spec_float) (sr : Z) (turn : Turn) : Prop :=
  exists segment,
    turn_segment audio sr turn = Py.Ok segment /\
    ((sr <= Z.of_nat (length segment))%Z ->
     (exists embedding, embed_utterance segment = Py.Ok embedding) /\
     (exists result, transcribe segment = Py.Ok result)).

End Pipeline.

(** ** The spec's words *)

(** "For every file whose samples are not all zero the divisor is nonzero
    and every normalised sample lies in [-1, 1]." *)
Definition int16 (x : Z) : Prop := (-32768 <= x <= 32767)%Z.

Definition within_unit (y : spec_float) : Prop :=
  SFleb (f32_of_int (-1)) y = true /\ SFleb y (f32_of_int 1) = true.

Definition normalized_within_unit : Prop :=
  forall (audio : list Z),
    Forall int16 audio ->
    Exists (fun x => x <> 0%Z) audio ->
    exists m out,
      peak audio = Py.Ok m /\ m <> 0%Z /\
      normalize audio = Py.Ok out /\ Forall within_unit out.

End FilePipeline.

(* ================================================================== *)
(** * local_realtime_transcribe.py *)
(* ================================================================== *)

Module Realtime.
Import Diarization.

Definition SAMPLE_RATE : Z := 16000.
Definition CHUNK_DURATION : Z := 5.

(** An entry of [results]. *)
Record Segment := {
  speaker : string;
  start : float;
  end_ : float;
  language : string;
  text : string;
}.

Section Pipeline.
(** One float32 sample. *)
Context {A : Type}.
(** The diarization pipeline on the chunk (through its temporary WAV
    file), [whisper_model.transcribe], [str.strip]. *)
Variable pipeline : list A -> Py.result (list Turn).
Variable transcribe : list A -> Py.result Transcription.
Variable strip : string -> string.

(** The [for turn, _, speaker in ...] loop (lines 58-75).  Each kept turn
    is appended to [results] and printed at once; the loop returns what it
    has emitted together with the exception that ended it, if any. *)
Fixpoint process_turns (audio : list A) (sample_rate : Z) (turns : list Turn)
    (results : list Segment) : list Segment * option string :=
  match turns with
  | [] => (results, None)
  | turn :: turns' =>
      match turn_segment audio sample_rate turn with
      | Py.Raise e => (results, Some e)
      | Py.Ok segment =>
          if (Z.of_nat (length segment) <? sample_rate / 2)%Z then
            process_turns audio sample_rate turns' results
          else
            match transcribe segment with
            | Py.Raise e => (results, Some e)
            | Py.Ok result =>
                process_turns audio sample_rate turns'
                  (results ++ [{| speaker := turn_speaker turn;
                                  start := turn_start turn;
                                  end_ := turn_end turn;
                                  language := whisper_language result;
                                  text := strip (whisper_text result) |}])
            end
      end
  end.

(** [process_chunk(chunk, sample_rate)]. *)
Definition process_chunk (chunk : list A) (sample_rate : Z) : list Segment * option string :=
  match pipeline chunk with
  | Py.Raise e => ([], Some e)
  | Py.Ok diarization => process_turns chunk sample_rate diarization []
  end.

(** [main]'s loop over the queued frames.  [buffer] is a list of arrays;
    the test multiplies their number by the rows of the newest frame.
    Only [KeyboardInterrupt] is caught, so an exception of
    [process_chunk] ends the program.  [out] collects, chunk by chunk,
    the segments emitted. *)
Inductive Run :=
| Listening (buffer : list (list A)) (out : list (list Segment))
| Crashed (e : string) (out : list (list Segment)).

Definition window : nat := Z.to_nat (SAMPLE_RATE * CHUNK_DURATION).

Fixpoint main_loop (frames : list (list A)) (buffer : list (list A))
    (out : list (list Segment)) : Run :=
  match frames with
  | [] => Listening buffer out
  | chunk :: frames' =>
      let buffer := buffer ++ [chunk] in
      if (window <=? length buffer * length chunk)%nat then
        let audio_chunk := take window (concat buffer) in
        match process_chunk audio_chunk SAMPLE_RATE with
        | (results, None) =>
            main_loop frames' [drop window (concat buffer)] (out ++ [results])
        | (results, Some e) => Crashed e (out ++ [results])
        end
      else main_loop frames' buffer out
  end.

Definition main (frames : list (list A)) : Run := main_loop frames [] [].

(** ** Vocabulary of the statements about the loop *)

(** What one turn contributes to [results] when nothing raises. *)
Definition emitted_for (audio : list A) (sample_rate : Z) (turn : Turn) : option Segment :=
  match turn_segment audio sample_rate turn with
  | Py.Ok segment =>
      if (Z.of_nat (length segment) <? sample_rate / 2)%Z then None
      else match transcribe segment with
           | Py.Ok result =>
               Some {| speaker := turn_speaker turn;
                       start := turn_start turn;
                       end_ := turn_end turn;
                       language := whisper_language result;
                       text := strip (whisper_text result) |}
           | Py.Raise _ => None
           end
  | Py.Raise _ => None
  end.

(** The turn is cut without error, and Whisper answers if it is asked. *)
Definition turn_goes_through (audio : list A) (sample_rate : Z) (turn : Turn) : Prop :=
  exists segment,
    turn_segment audio sample_rate turn = Py.Ok segment /\
    ((sample_rate / 2 <= Z.of_nat (length segment))%Z ->
     exists result, transcribe segment = Py.Ok result).

(** ** The spec's words *)

(** The minimum duration of a turn, in seconds. *)
Definition MIN_DURATION : float := 0.5%float.

(** "Every turn shorter than the minimum duration is discarded: zero
    segments, and no error." *)
Definition short_turns_are_discarded : Prop :=
  forall (audio : list A) (turn : Turn),
    (turn_end turn - turn_start turn <? MIN_DURATION)%float = true ->
    process_turns audio SAMPLE_RATE [turn] [] = ([], None).

(** The base timestamp of the chunk with sequence number [k]: [k] windows
    of [CHUNK_DURATION] seconds precede it in the stream. *)
Definition chunk_base (k : nat) : float :=
  Py.float_of_int (Z.of_nat k * CHUNK_DURATION).

(** "A segment's absolute start and end are the chunk's base timestamp
    plus the turn's offsets within the chunk." *)
Definition segments_carry_absolute_times : Prop :=
  forall (frames buffer : list (list A)) (out : list (list Segment))
         (k : nat) (results : list Segment) (seg : Segment),
    main frames = Listening buffer out ->
    out !! k = Some results ->
    seg ∈ results ->
    exists (chunk : list A) (turns : list Turn) (turn : Turn),
      pipeline chunk = Py.Ok turns /\ turn ∈ turns /\
      start seg = (chunk_base k + turn_start turn)%float /\
      end_ seg = (chunk_base k + turn_end turn)%float.

(** "An adapter error costs the chunk its segments and nothing more: the
    pipeline keeps listening." *)
Definition adapter_failures_are_survived : Prop :=
  forall (frames : list (list A)),
    exists buffer out, main frames = Listening buffer out.

End Pipeline.

End Realtime.

(** A five-second frame of silence, a diarizer that reports one turn from
    1 s to 2 s in every chunk (or fails), and a Whisper that hears "hi". *)
Module RealtimeExamples.
Import Diarization Realtime.
Local Open Scope float_scope.

Definition silence : list Z := replicate 80000 0%Z.

Definition one_turn : Turn :=
  {| turn_start := 1; turn_end := 2; turn_speaker := "SPEAKER_00" |}.

(** A turn of 16383/32768 s, a little under half a second, that starts
    between two samples. *)
Definition near_half : Turn :=
  {| turn_start := 0x1p-11; turn_end := 0x1.003cp-1; turn_speaker := "SPEAKER_00" |}.

Definition diarizer_ok : list Z -> Py.result (list Turn) :=
  fun _ => Py.Ok [one_turn].

Definition diarizer_down : list Z -> Py.result (list Turn) :=
  fun _ => Py.Raise "diarizer"%string.

Definition whisper : list Z -> Py.result Transcription :=
  fun _ => Py.Ok {| whisper_text := "hi"; whisper_language := "en" |}.

Definition no_strip : string -> string := fun s => s.

(** A small instance for the loop over turns: 8 samples per second, five
    seconds of audio, a turn of one second and a turn of a quarter. *)
Definition brief : Turn :=
  {| turn_start := 1; turn_end := 1.25; turn_speaker := "SPEAKER_01" |}.

Definition short_audio : list Z := replicate 40 0%Z.

(** The same for the file pipeline: binary32 zeros, an encoder that
    answers with a fixed embedding. *)
Definition short_samples : list spec_float := replicate 40 (S754_zero false).

Definition encoder : list spec_float -> Py.result (list float) :=
  fun _ => Py.Ok RegistryExamples.east.

Definition whisper32 : list spec_float -> Py.result Transcription :=
  fun _ => Py.Ok {| whisper_text := "hi"; whisper_language := "en" |}.

(** A short 16-bit recording, and one second of digital silence. *)
Definition recording : list Z := [120; -4000; 4000; 0; 17]%Z.

End RealtimeExamples.


(* ================================================================== *)
(** * Further vocabulary: what the capture loop reports *)
(* ================================================================== *)

Module CaptureReports.
Import Capture.

(** The line [p] is what the endpoint answered for one of the windows in
    [chunks], the one numbered as the line is: a shown line carries the
    endpoint's result, which passed the filter, and the clock's stamp; an
    error line carries the exception raised. *)
Definition line_answers {A} (env : Env A) (chunks : list (nat * list A))
    (p : nat * Line) : Prop :=
  exists chunk,
    (p.1, chunk) ∈ chunks /\
    match p.2 with
    | Shown timestamp result =>
        predict env p.1 chunk = Py.Ok result /\
        should_display_result result = true /\
        timestamp = now env p.1
    | ApiError e => predict env p.1 chunk = Py.Raise e
    end.

(** Every line is about a window already cut and answers it; the lines
    come in strictly increasing window order; every window counted so far
    was saved. *)
Definition well_reported {A} (env : Env A) (st : State A) : Prop :=
  Forall (fun p => p.1 < chunk_idx st /\ line_answers env (emitted st) p) (printed st) /\
  StronglySorted lt (map fst (printed st)) /\
  (forall j, j < chunk_idx st -> save_ok env j = true).

(** Where a run that ended stopped: at a window that was cut, numbered
    [chunk_idx], and could not be saved. *)
Definition stopped_at_save {A} (env : Env A) (st : State A) : Prop :=
  save_ok env (chunk_idx st) = false /\
  exists chunk, last (emitted st) = Some (chunk_idx st, chunk).

(** The lines the requests for [chunks] leave behind, window by window. *)
Definition lines_of {A} (env : Env A) (chunks : list (nat * list A)) : list (nat * Line) :=
  foldl (fun out c => request env c.1 c.2 out) [] chunks.

(** [text] has [phrase] somewhere inside. *)
Definition substring_of (phrase text : string) : Prop :=
  exists pre post, text = (pre +:+ phrase +:+ post)%string.

End CaptureReports.

(* ================================================================== *)
(** * Further vocabulary: the registry as a dict *)
(* ================================================================== *)

Module RegistryDict.

(** [d.get(k)]: the value under [k], if any. *)
Fixpoint dict_get {V} (k : string) (d : list (string * V)) : option V :=
  match d with
  | [] => None
  | (k', v) :: d' => if String.eqb k' k then Some v else dict_get k d'
  end.

(** The file name [enroll_speaker] writes for a speaker. *)
Definition npy (name : string) : string := (name +:+ ".npy")%string.

(** The profile a listed file contributes: none unless it ends in [.npy]
    and is there. *)
Definition profile_of {Emb} (files : gmap string Emb) (fname : string)
    : option (string * Emb) :=
  if Py.endswith fname ".npy"
  then (fun e => (Py.drop_last 4 fname, e)) <$> files !! fname
  else None.

(** A label the file pipeline may print, given what the directory held:
    "Unknown", or the name of a listed [.npy] file that is there. *)
Definition label_from_directory {Emb} (dir : Registry.enroll_dir (Emb:=Emb))
    (listing : list string) (label : string) : Prop :=
  label = "Unknown"%string \/
  (npy label ∈ listing /\
   exists files e, dir = Some files /\ files !! npy label = Some e).

End RegistryDict.

(* ================================================================== *)
(** * Further vocabulary: the windows of the realtime loop *)
(* ================================================================== *)

Module RealtimeWindows.
Import Realtime.

Section Windows.
Context {A : Type}.

(** The arrays [main] hands to [process_chunk], one after the other: the
    loop of [Realtime.main_loop] with the processing left out. *)
Fixpoint windows (frames : list (list A)) (buffer : list (list A)) : list (list A) :=
  match frames with
  | [] => []
  | chunk :: frames' =>
      let buffer := buffer ++ [chunk] in
      if (window <=? length buffer * length chunk)%nat then
        take window (concat buffer) :: windows frames' [drop window (concat buffer)]
      else windows frames' buffer
  end.

(** The buffer the loop is left with when nothing raises. *)
Fixpoint leftover (frames : list (list A)) (buffer : list (list A)) : list (list A) :=
  match frames with
  | [] => buffer
  | chunk :: frames' =>
      let buffer := buffer ++ [chunk] in
      if (window <=? length buffer * length chunk)%nat then
        leftover frames' [drop window (concat buffer)]
      else leftover frames' buffer
  end.

End Windows.

End RealtimeWindows.

(* ================================================================== *)
(** * Further vocabulary: an exhaustive check on 16-bit magnitudes *)
(* ================================================================== *)

Module FullScale.
Import FilePipeline.

(** A check of every integer in [[base, base + 2^bits)], by halving. *)
Fixpoint all_in_range (bits : nat) (base : Z) (f : Z -> bool) : bool :=
  match bits with
  | O => f base
  | S b => all_in_range b base f && all_in_range b (base + 2 ^ Z.of_nat b) f
  end.

(** A sample divided by itself is one, by its opposite minus one. *)
Definition full_scale_check (x : Z) : bool :=
  (x =? 0)%Z ||
  match f32_div (f32_of_int x) (f32_of_int x), f32_div (f32_of_int (- x)) (f32_of_int x) with
  | S754_finite false 8388608 (-23), S754_finite true 8388608 (-23) => true
  | _, _ => false
  end.

End FullScale.

(* ================================================================== *)
(** * Further vocabulary: nearest profiles and the spec's words on them *)
(* ================================================================== *)

Module Nearest.
Import Registry.

Section Nearest.
Context {Emb : Type}.
Variable cdist_cosine : Emb -> Emb -> float.

(** [p] is at the minimum distance: its distance is a number and is below
    or equal to every distance of the row (so the row holds no NaN). *)
Definition closest (e : Emb) (reg : list (string * Emb)) (p : string * Emb) : Prop :=
  p ∈ reg /\
  forall q, q ∈ reg -> (cdist_cosine e p.2 <=? cdist_cosine e q.2)%float = true.

(** "For every non-empty registry the minimum-distance profile is accepted
    when its distance is strictly below the threshold": a profile whose
    distance is a number that no other distance compares below, and that
    is below the threshold, gives the answer its name, or that of a profile
    at the same distance. *)
Definition closest_profile_is_accepted : Prop :=
  forall (e : Emb) (reg : list (string * Emb)) (thr : float) (p : string * Emb),
    p ∈ reg ->
    is_nan (cdist_cosine e p.2) = false ->
    (forall q, q ∈ reg -> (cdist_cosine e q.2 <? cdist_cosine e p.2)%float = false) ->
    (cdist_cosine e p.2 <? thr)%float = true ->
    exists q, q ∈ reg /\
              (cdist_cosine e q.2 =? cdist_cosine e p.2)%float = true /\
              identify_speaker cdist_cosine e reg thr = q.1.

(** "Identical (embedding, registry state) pairs give the same result",
    the registry state being what is enrolled, the mapping from names to
    embeddings: two registries with the same profiles, in whatever order
    they were loaded, give the same answer. *)
Definition same_registry_same_answer : Prop :=
  forall (e : Emb) (reg reg' : list (string * Emb)) (thr : float),
    NoDup (map fst reg) ->
    reg' ≡ₚ reg ->
    identify_speaker cdist_cosine e reg' thr = identify_speaker cdist_cosine e reg thr.

End Nearest.

End Nearest.
(* ================================================================== *)
(** * Properties of the chunk loop of capture_and_translate.py *)
(* ================================================================== *)

Module CaptureFacts.
Import Capture.

Section Assembly.
Context {A : Type}.
Variable chunk_samples : nat.
Hypothesis chunk_samples_pos : 0 < chunk_samples.

Lemma samples_of_snoc chunks idx (chunk : list A) :
  samples_of (chunks ++ [(idx, chunk)]) = samples_of chunks ++ chunk.
Proof.
  unfold samples_of. rewrite map_app, concat_app. simpl.
  by rewrite app_nil_r.
Qed.

Lemma assembled_init : assembled chunk_samples [] (init (A:=A)).
Proof. repeat split; constructor. Qed.

Lemma assembled_length (input : list A) st :
  assembled chunk_samples input st ->
  length input = chunk_samples * length (emitted st) + length (buffer st).
Proof.
  intros (Hin & Hfull & _). subst input.
  rewrite length_app. f_equal.
  unfold samples_of. induction Hfull as [|c cs Hc _ IH]; simpl; [lia|].
  rewrite length_app, IH, Hc. lia.
Qed.

(** One pass of the extraction loop, when no save fails: it stops, the
    account is kept and less than a window is left. *)
Lemma process_complete_chunks_waits (env : Env A) (input : list A) fuel st :
  (forall i, save_ok env i = true) ->
  length (buffer st) < fuel ->
  assembled chunk_samples input st ->
  exists st',
    process_complete_chunks chunk_samples env fuel st = Waiting st' /\
    assembled chunk_samples input st' /\
    length (buffer st') < chunk_samples.
Proof.
  intros Hsave. revert st.
  induction fuel as [|fuel IH]; intros st Hfuel Hst; [lia|].
  simpl. destruct (Nat.leb_spec chunk_samples (length (buffer st))) as [Hle|Hlt].
  - rewrite Hsave. apply IH.
    + simpl. rewrite length_drop. lia.
    + destruct Hst as (Hin & Hfull & Hidx). repeat split; simpl.
      * rewrite samples_of_snoc, <- app_assoc, take_drop. exact Hin.
      * apply Forall_app. split; [exact Hfull|].
        constructor; [|constructor]. simpl. rewrite length_take. lia.
      * rewrite map_app, Hidx. symmetry. apply (seq_S (chunk_idx st) 0).
  - exists st. auto.
Qed.

Lemma feed_waits (env : Env A) fuel frames : forall st (input : list A),
  (forall i, save_ok env i = true) ->
  length input + length (concat frames) < fuel ->
  assembled chunk_samples input st ->
  length (buffer st) < chunk_samples ->
  exists st',
    feed chunk_samples env fuel frames st = Waiting st' /\
    assembled chunk_samples (input ++ concat frames) st' /\
    length (buffer st') < chunk_samples.
Proof.
  induction frames as [|frame frames IH]; intros st input Hsave Hfuel Hst Hbuf.
  - exists st. simpl. rewrite app_nil_r. auto.
  - simpl in *. rewrite length_app in Hfuel.
    set (st1 := {| buffer := buffer st ++ frame; chunk_idx := chunk_idx st;
                   emitted := emitted st; printed := printed st |}).
    assert (H1 : assembled chunk_samples (input ++ frame) st1).
    { destruct Hst as (Hin & Hfull & Hidx). repeat split; simpl; auto.
      rewrite app_assoc. by rewrite Hin. }
    destruct (process_complete_chunks_waits env (input ++ frame) fuel st1 Hsave)
      as (st2 & Hrun & H2 & Hlt); [|exact H1|].
    { pose proof (assembled_length _ _ H1) as Hlen.
      rewrite length_app in Hlen. simpl in *. lia. }
    rewrite Hrun.
    destruct (IH st2 (input ++ frame) Hsave) as (st3 & Hrun3 & H3 & Hlt3); auto.
    { rewrite length_app. lia. }
    exists st3. by rewrite app_assoc.
Qed.

Lemma main_waits (env : Env A) fuel frames :
  (forall i, save_ok env i = true) ->
  length (concat frames) < fuel ->
  exists st,
    main chunk_samples env true fuel frames = Waiting st /\
    assembled chunk_samples (concat frames) st /\
    length (buffer st) < chunk_samples.
Proof.
  intros Hsave Hfuel.
  destruct (feed_waits env fuel frames init [] Hsave) as (st & ? & ? & ?); simpl; auto.
  - apply assembled_init.
  - eauto.
Qed.

(** Any pass of the extraction loop, from any state: it stops with the
    leftover reduced modulo the window. *)
Lemma process_complete_chunks_leftover (env : Env A) fuel : forall st,
  (forall i, save_ok env i = true) ->
  length (buffer st) < fuel ->
  exists st',
    process_complete_chunks chunk_samples env fuel st = Waiting st' /\
    length (buffer st') = length (buffer st) mod chunk_samples.
Proof.
  induction fuel as [|fuel IH]; intros st Hsave Hfuel; [lia|].
  simpl. destruct (Nat.leb_spec chunk_samples (length (buffer st))) as [Hle|Hlt].
  - rewrite Hsave.
    edestruct IH as (st' & Hrun & Hlen); [exact Hsave| |].
    2:{ exists st'. split; [exact Hrun|]. rewrite Hlen. simpl.
        rewrite length_drop.
        replace (length (buffer st))
          with ((length (buffer st) - chunk_samples) + 1 * chunk_samples) at 2 by lia.
        rewrite Nat.Div0.mod_add. reflexivity. }
    simpl. rewrite length_drop. lia.
  - exists st. split; [reflexivity|]. by rewrite Nat.mod_small.
Qed.

End Assembly.

(** C1. Whatever frames are fed (no save failing), the loop comes to rest,
    and the windows it has cut, taken in sequence order and followed by the
    leftover buffer, are the frames' samples in capture order: nothing is
    lost or repeated.  Each window is exactly [chunk_samples] long and the
    sequence numbers are 0, 1, 2, ... *)
Theorem chunk_round_trip {A} (chunk_samples : nat) (env : Env A) (fuel : nat)
    (frames : list (list A)) :
  0 < chunk_samples ->
  (forall i, save_ok env i = true) ->
  length (concat frames) < fuel ->
  exists st,
    main chunk_samples env true fuel frames = Waiting st /\
    concat (map snd (emitted st)) ++ buffer st = concat frames /\
    Forall (fun c => length c.2 = chunk_samples) (emitted st) /\
    map fst (emitted st) = seq 0 (length (emitted st)).
Proof.
  intros Hpos Hsave Hfuel.
  destruct (main_waits chunk_samples Hpos env fuel frames Hsave Hfuel)
    as (st & Hrun & (Hin & Hfull & Hidx) & _).
  exists st. repeat split; auto.
  rewrite Hidx. f_equal.
  apply (f_equal length) in Hidx. rewrite length_map, length_seq in Hidx. auto.
Qed.

Lemma chunk_round_trip_witness :
  exists st,
    main 3 CaptureExamples.env_ok true 8 CaptureExamples.frames = Waiting st /\
    concat (map snd (emitted st)) ++ buffer st = concat CaptureExamples.frames /\
    Forall (fun c => length c.2 = 3) (emitted st) /\
    map fst (emitted st) = seq 0 (length (emitted st)).
Proof.
  apply (chunk_round_trip 3 CaptureExamples.env_ok 8 CaptureExamples.frames).
  - lia.
  - reflexivity.
  - simpl. lia.
Defined.

(** C8. Every pass of the extraction loop ends with fewer than
    [chunk_samples] samples retained (the old length modulo the window),
    so whenever the loop is waiting for a frame the leftover is shorter
    than a window; it is the total input length modulo the window, hence
    empty when that length is an exact multiple. *)
Theorem leftover_invariant {A} (chunk_samples : nat) (env : Env A) (fuel : nat)
    (frames : list (list A)) (st0 : State A) :
  0 < chunk_samples ->
  (forall i, save_ok env i = true) ->
  length (concat frames) < fuel ->
  length (buffer st0) < fuel ->
  (exists st1,
     process_complete_chunks chunk_samples env fuel st0 = Waiting st1 /\
     length (buffer st1) < chunk_samples) /\
  (exists st,
     main chunk_samples env true fuel frames = Waiting st /\
     length (buffer st) < chunk_samples /\
     length (buffer st) = length (concat frames) mod chunk_samples /\
     (length (concat frames) mod chunk_samples = 0 -> buffer st = [])).
Proof.
  intros Hpos Hsave Hfuel Hfuel0. split.
  - destruct (process_complete_chunks_leftover chunk_samples Hpos env fuel st0 Hsave Hfuel0)
      as (st1 & Hrun & Hlen).
    exists st1. split; [exact Hrun|]. rewrite Hlen.
    apply Nat.mod_upper_bound. lia.
  - destruct (main_waits chunk_samples Hpos env fuel frames Hsave Hfuel)
      as (st & Hrun & Hacc & Hlt).
    exists st. split; [exact Hrun|]. split; [exact Hlt|].
    assert (Hmod : length (buffer st) = length (concat frames) mod chunk_samples).
    { pose proof (assembled_length chunk_samples Hpos (concat frames) st Hacc) as Hlen.
      rewrite Hlen, Nat.add_comm, Nat.mul_comm, Nat.Div0.mod_add.
      by rewrite Nat.mod_small. }
    split; [exact Hmod|].
    intros Hz. rewrite Hz in Hmod. by apply length_zero_iff_nil.
Qed.

Lemma leftover_invariant_witness :
  (exists st1,
     process_complete_chunks 3 CaptureExamples.env_ok 8
       {| buffer := [1; 2; 3; 4; 5; 6; 7]; chunk_idx := 0; emitted := []; printed := [] |}
       = Waiting st1 /\
     length (buffer st1) < 3) /\
  (exists st,
     main 3 CaptureExamples.env_ok true 8 CaptureExamples.frames = Waiting st /\
     length (buffer st) < 3 /\
     length (buffer st) = length (concat CaptureExamples.frames) mod 3 /\
     (length (concat CaptureExamples.frames) mod 3 = 0 -> buffer st = [])).
Proof.
  apply (leftover_invariant 3 CaptureExamples.env_ok 8 CaptureExamples.frames).
  - lia.
  - reflexivity.
  - simpl. lia.
  - simpl. lia.
Defined.

(** ** A failing request *)

Section RequestFailure.
Context {A : Type}.
Variable chunk_samples : nat.
Variable k : nat.

Lemma lines_except_app out out' :
  lines_except k (out ++ out') = lines_except k out ++ lines_except k out'.
Proof. apply List.filter_app. Qed.

Lemma lines_except_own out l : lines_except k (out ++ [(k, l)]) = lines_except k out.
Proof.
  rewrite lines_except_app. unfold lines_except at 2. simpl.
  rewrite Nat.eqb_refl. simpl. apply app_nil_r.
Qed.

Lemma results_for_app out out' :
  results_for k (out ++ out') = results_for k out ++ results_for k out'.
Proof. apply omap_app. Qed.

(** The request changes the lines about its own chunk only, and alike in
    worlds that agree on that chunk. *)
Lemma request_same (env env' : Env A) idx chunk out out' :
  agree_except k env env' ->
  lines_except k out = lines_except k out' ->
  lines_except k (request env idx chunk out)
  = lines_except k (request env' idx chunk out').
Proof.
  intros (_ & Hnow & Hpred) Hout. unfold request.
  destruct (Nat.eq_dec idx k) as [->|Hne].
  - destruct (predict env k chunk) as [r|e], (predict env' k chunk) as [r'|e'];
      repeat match goal with
             | |- context [should_display_result ?r] => destruct (should_display_result r)
             end; rewrite ?lines_except_own; exact Hout.
  - rewrite <- (Hpred idx chunk Hne), <- Hnow.
    destruct (predict env idx chunk) as [r|e];
      [destruct (should_display_result r)|]; rewrite ?lines_except_app; congruence.
Qed.

Lemma request_results (env : Env A) idx chunk out :
  (forall c, exists e, predict env k c = Py.Raise e) ->
  results_for k (request env idx chunk out) = results_for k out.
Proof.
  intros Hraise. unfold request.
  destruct (Nat.eq_dec idx k) as [->|Hne].
  - destruct (Hraise chunk) as [e ->]. rewrite results_for_app. simpl. apply app_nil_r.
  - destruct (predict env idx chunk) as [r|e];
      [destruct (should_display_result r)|]; rewrite ?results_for_app; simpl;
      rewrite ?app_nil_r; try reflexivity.
    apply Nat.eqb_neq in Hne. rewrite Hne. apply app_nil_r.
Qed.

Lemma process_complete_chunks_same (env env' : Env A) fuel : forall s s',
  agree_except k env env' ->
  same_except k s s' ->
  same_run k (process_complete_chunks chunk_samples env fuel s)
             (process_complete_chunks chunk_samples env' fuel s').
Proof.
  induction fuel as [|fuel IH]; intros s s' Hagree (Hbuf & Hidx & Hem & Hout); [exact I|].
  simpl. rewrite <- Hbuf, <- Hidx, <- Hem.
  destruct (chunk_samples <=? length (buffer s))%nat; [|by repeat split].
  destruct Hagree as (Hsave & Hrest). rewrite <- Hsave.
  destruct (save_ok env (chunk_idx s)).
  - apply IH; [by split|]. repeat split; simpl; auto.
    apply request_same; [by split|exact Hout].
  - repeat split; simpl; auto.
Qed.

Lemma feed_same (env env' : Env A) fuel frames : forall s s',
  agree_except k env env' ->
  same_except k s s' ->
  same_run k (feed chunk_samples env fuel frames s)
             (feed chunk_samples env' fuel frames s').
Proof.
  induction frames as [|frame frames IH]; intros s s' Hagree Hs; [exact Hs|].
  simpl.
  set (t := {| buffer := buffer s ++ frame |}).
  set (t' := {| buffer := buffer s' ++ frame |}).
  assert (Ht : same_except k t t').
  { destruct Hs as (Hbuf & Hidx & Hem & Hout). repeat split; simpl; congruence. }
  pose proof (process_complete_chunks_same env env' fuel t t' Hagree Ht) as Hrun.
  destruct (process_complete_chunks chunk_samples env fuel t),
           (process_complete_chunks chunk_samples env' fuel t');
    try exact Hrun; try (exfalso; exact Hrun).
  apply IH; assumption.
Qed.

Lemma process_complete_chunks_results (env : Env A) fuel : forall s st,
  (forall c, exists e, predict env k c = Py.Raise e) ->
  final (process_complete_chunks chunk_samples env fuel s) = Some st ->
  results_for k (printed st) = results_for k (printed s).
Proof.
  induction fuel as [|fuel IH]; intros s st Hraise; simpl; [discriminate|].
  destruct (chunk_samples <=? length (buffer s))%nat.
  - destruct (save_ok env (chunk_idx s)).
    + intros Hfin. rewrite (IH _ st Hraise Hfin). simpl. by apply request_results.
    + intros [= <-]. reflexivity.
  - intros [= <-]. reflexivity.
Qed.

Lemma feed_results (env : Env A) fuel frames : forall s st,
  (forall c, exists e, predict env k c = Py.Raise e) ->
  final (feed chunk_samples env fuel frames s) = Some st ->
  results_for k (printed st) = results_for k (printed s).
Proof.
  induction frames as [|frame frames IH]; intros s st Hraise; simpl.
  - intros [= <-]. reflexivity.
  - set (t := {| buffer := buffer s ++ frame |}).
    pose proof (process_complete_chunks_results env fuel t) as Hstep.
    destruct (process_complete_chunks chunk_samples env fuel t) as [t1|t1|]; simpl.
    + intros Hfin. rewrite (IH t1 st Hraise Hfin). by apply Hstep.
    + intros [= <-]. by apply Hstep.
    + discriminate.
Qed.

(** The run ends only where a chunk file could not be saved. *)
Lemma process_complete_chunks_fatal (env : Env A) fuel : forall s st,
  process_complete_chunks chunk_samples env fuel s = Fatal st ->
  exists i, save_ok env i = false.
Proof.
  induction fuel as [|fuel IH]; intros s st; simpl; [discriminate|].
  destruct (chunk_samples <=? length (buffer s))%nat; [|discriminate].
  destruct (save_ok env (chunk_idx s)) eqn:Hsave; [apply IH|].
  intros _. by exists (chunk_idx s).
Qed.

Lemma feed_fatal (env : Env A) fuel frames : forall s st,
  feed chunk_samples env fuel frames s = Fatal st ->
  exists i, save_ok env i = false.
Proof.
  induction frames as [|frame frames IH]; intros s st; simpl; [discriminate|].
  set (t := {| buffer := buffer s ++ frame |}).
  destruct (process_complete_chunks chunk_samples env fuel t) as [t1|t1|] eqn:Hrun.
  - apply IH.
  - intros _. by apply (process_complete_chunks_fatal env fuel t t1).
  - discriminate.
Qed.

End RequestFailure.

(** What the example run prints: chunk 0 is shown, chunk 1 is reported as
    failed, and the loop is waiting with one sample left. *)
Example capture_run_with_failure :
  main 3 CaptureExamples.env_fail1 true 8 CaptureExamples.frames
  = Waiting {| buffer := [7]; chunk_idx := 2;
               emitted := [(0, [1; 2; 3]); (1, [4; 5; 6])];
               printed := [(0, Shown "120000" "hello"); (1, ApiError "timeout")] |}.
Proof. reflexivity. Qed.

End CaptureFacts.

(* ================================================================== *)
(** * Order facts about binary64 comparisons *)
(* ================================================================== *)

Module FloatFacts.
Local Open Scope float_scope.

(** The comparison of two descriptions, read the other way round. *)
Lemma SFcompare_swap (x y : spec_float) :
  SFcompare y x = option_map CompOpp (SFcompare x y).
Proof.
  destruct x as [sx|sx| |sx mx ex], y as [sy|sy| |sy my ey]; simpl;
    try reflexivity;
    repeat match goal with s : bool |- _ => destruct s end; simpl; try reflexivity;
    rewrite (Z.compare_antisym ey ex); destruct (ey ?= ex)%Z; simpl; try reflexivity;
    rewrite Pos.compare_cont_antisym; simpl; rewrite ?CompOpp_involutive; reflexivity.
Qed.

Lemma SFcompare_refl (x : spec_float) :
  x <> S754_nan -> SFcompare x x = Some Eq.
Proof.
  destruct x as [s|s| |s m e]; simpl; intros Hx; try congruence;
    destruct s; try reflexivity;
    rewrite Z.compare_refl;
    change (Pos.compare_cont Eq m m) with (m ?= m)%positive;
    rewrite Pos.compare_refl; reflexivity.
Qed.

Lemma SFcompare_nan (x y : spec_float) :
  SFcompare x y = None <-> x = S754_nan \/ y = S754_nan.
Proof.
  destruct x as [sx|sx| |sx mx ex], y as [sy|sy| |sy my ey]; simpl;
    split; intros H; try discriminate; auto; destruct H; discriminate.
Qed.

Ltac lex_cases ex mx ey my ez mz :=
  change (Pos.compare_cont Eq) with Pos.compare in *;
  destruct (Z.compare_spec ex ey), (Z.compare_spec ey ez), (Z.compare_spec ex ez);
  destruct (Pos.compare_spec mx my), (Pos.compare_spec my mz), (Pos.compare_spec mx mz);
  simpl in *; try reflexivity; try discriminate; exfalso; lia.

(** Strictly below, then below or equal: strictly below. *)
Lemma SFcompare_lt_le (x y z : spec_float) :
  SFcompare x y = Some Lt ->
  SFcompare y z = Some Lt \/ SFcompare y z = Some Eq ->
  SFcompare x z = Some Lt.
Proof.
  destruct x as [sx|sx| |sx mx ex], y as [sy|sy| |sy my ey], z as [sz|sz| |sz mz ez];
    try destruct sx; try destruct sy; try destruct sz; simpl;
    intros H1 [H2|H2]; try discriminate; try reflexivity;
    lex_cases ex mx ey my ez mz.
Qed.

(** ** The same facts on primitive floats *)

Lemma is_nan_spec (x : float) : is_nan x = true <-> Prim2SF x = S754_nan.
Proof.
  unfold is_nan. rewrite FloatAxioms.eqb_spec. unfold SFeqb. split.
  - intros H. destruct (Prim2SF x) as [s|s| |s m e] eqn:E; auto; exfalso;
      rewrite SFcompare_refl in H by discriminate; discriminate.
  - intros ->. reflexivity.
Qed.

Lemma not_nan_spec (x : float) : is_nan x = false <-> Prim2SF x <> S754_nan.
Proof.
  pose proof (is_nan_spec x) as [H1 H2].
  destruct (is_nan x); split; intros H; try congruence.
  - exfalso. apply H. auto.
  - intros E. specialize (H2 E). discriminate.
Qed.

Lemma ltb_nan_r (x m : float) : is_nan m = true -> (x <? m) = false.
Proof.
  intros H%is_nan_spec. rewrite FloatAxioms.ltb_spec. unfold SFltb.
  replace (SFcompare (Prim2SF x) (Prim2SF m)) with (@None comparison); [reflexivity|].
  symmetry. apply SFcompare_nan. auto.
Qed.

Lemma eqb_nan_r (x m : float) : is_nan m = true -> (x =? m) = false.
Proof.
  intros H%is_nan_spec. rewrite FloatAxioms.eqb_spec. unfold SFeqb.
  replace (SFcompare (Prim2SF x) (Prim2SF m)) with (@None comparison); [reflexivity|].
  symmetry. apply SFcompare_nan. auto.
Qed.

Lemma leb_refl (x : float) : is_nan x = false -> (x <=? x) = true.
Proof.
  intros H%not_nan_spec. rewrite FloatAxioms.leb_spec. unfold SFleb.
  by rewrite SFcompare_refl.
Qed.

Lemma ltb_leb (x y : float) : (x <? y) = true -> (x <=? y) = true.
Proof.
  rewrite FloatAxioms.ltb_spec, FloatAxioms.leb_spec. unfold SFltb, SFleb.
  destruct (SFcompare (Prim2SF x) (Prim2SF y)) as [[]|]; auto.
Qed.

Lemma leb_not_ltb (m x : float) : (m <=? x) = true -> (x <? m) = false.
Proof.
  rewrite FloatAxioms.ltb_spec, FloatAxioms.leb_spec. unfold SFltb, SFleb.
  rewrite (SFcompare_swap (Prim2SF m) (Prim2SF x)).
  destruct (SFcompare (Prim2SF m) (Prim2SF x)) as [[]|]; simpl; auto; discriminate.
Qed.

Lemma ltb_not_eqb (m x : float) : (m <? x) = true -> (x =? m) = false.
Proof.
  rewrite FloatAxioms.ltb_spec, FloatAxioms.eqb_spec. unfold SFltb, SFeqb.
  rewrite (SFcompare_swap (Prim2SF m) (Prim2SF x)).
  destruct (SFcompare (Prim2SF m) (Prim2SF x)) as [[]|]; simpl; auto; discriminate.
Qed.

Lemma eqb_not_ltb (x y : float) : (x =? y) = true -> (x <? y) = false.
Proof.
  rewrite FloatAxioms.ltb_spec, FloatAxioms.eqb_spec. unfold SFltb, SFeqb.
  destruct (SFcompare (Prim2SF x) (Prim2SF y)) as [[]|]; simpl; auto; discriminate.
Qed.

Lemma ltb_not_nan (x y : float) : (x <? y) = true -> is_nan x = false /\ is_nan y = false.
Proof.
  rewrite FloatAxioms.ltb_spec. unfold SFltb. intros H.
  rewrite !not_nan_spec.
  split; intros E; rewrite E in H; simpl in H; try discriminate.
  destruct (Prim2SF x); discriminate.
Qed.

(** Two numbers are comparable: not below-or-equal means strictly above. *)
Lemma leb_total (x y : float) :
  is_nan x = false -> is_nan y = false -> (x <=? y) = false -> (y <? x) = true.
Proof.
  intros Hx%not_nan_spec Hy%not_nan_spec.
  rewrite FloatAxioms.ltb_spec, FloatAxioms.leb_spec. unfold SFltb, SFleb.
  rewrite (SFcompare_swap (Prim2SF x) (Prim2SF y)).
  destruct (SFcompare (Prim2SF x) (Prim2SF y)) as [[]|] eqn:E; simpl; auto.
  apply SFcompare_nan in E. tauto.
Qed.

Lemma ltb_leb_trans (x y z : float) :
  (x <? y) = true -> (y <=? z) = true -> (x <? z) = true.
Proof.
  rewrite !FloatAxioms.ltb_spec, FloatAxioms.leb_spec. unfold SFltb, SFleb. intros H1 H2.
  rewrite (SFcompare_lt_le (Prim2SF x) (Prim2SF y) (Prim2SF z)); auto.
  - destruct (SFcompare (Prim2SF x) (Prim2SF y)) as [[]|]; congruence.
  - destruct (SFcompare (Prim2SF y) (Prim2SF z)) as [[]|]; auto; discriminate.
Qed.

End FloatFacts.

(* ================================================================== *)
(** * Properties of speaker identification *)
(* ================================================================== *)

Module RegistryFacts.
Import Registry FloatFacts.
Local Open Scope float_scope.

Lemma map_lookup {X Y} (f : X -> Y) (l : list X) (i : nat) :
  map f l !! i = f <$> (l !! i).
Proof.
  revert i. induction l as [|x l IH]; intros [|i]; simpl; auto.
Qed.

Lemma nth_lookup_default {X} (l : list X) (i : nat) (d : X) :
  nth i l d = default d (l !! i).
Proof.
  revert i. induction l as [|x l IH]; intros [|i]; simpl; auto.
Qed.

(** ** [np.argmin] *)

Lemma running_min_snoc_keep pre mp min_ind x :
  running_min pre mp min_ind -> (mp <=? x) = true ->
  running_min (pre ++ [x]) mp min_ind.
Proof.
  intros (Hat & Hnum & Hle & Hlt) Hx. repeat split; auto.
  - by apply lookup_app_l_Some.
  - intros j y [Hy|[_ Hy]]%lookup_app_Some; [by eapply Hle|].
    destruct (j - length pre)%nat; simpl in Hy; [|discriminate].
    by injection Hy as <-.
  - intros j y Hj [Hy|[Hge _]]%lookup_app_Some; [by eapply Hlt|].
    apply lookup_lt_Some in Hat. lia.
Qed.

Lemma running_min_snoc_new pre mp min_ind x :
  running_min pre mp min_ind -> (mp <=? x) = false -> is_nan x = false ->
  running_min (pre ++ [x]) x (length pre).
Proof.
  intros (Hat & Hnum & Hle & Hlt) Hx Hnan.
  assert (Hbelow : (x <? mp) = true) by by apply leb_total.
  repeat split; auto.
  - rewrite lookup_app_r by lia. by rewrite Nat.sub_diag.
  - intros j y [Hy|[_ Hy]]%lookup_app_Some.
    + apply ltb_leb, (ltb_leb_trans x mp y); eauto.
    + destruct (j - length pre)%nat; simpl in Hy; [|discriminate].
      injection Hy as <-. by apply leb_refl.
  - intros j y Hj [Hy|[Hge _]]%lookup_app_Some; [|lia].
    apply (ltb_leb_trans x mp y); eauto.
Qed.

Lemma argmin_from_selects ip : forall pre mp min_ind,
  running_min pre mp min_ind ->
  selects (pre ++ ip) (argmin_from mp min_ind (length pre) ip).
Proof.
  induction ip as [|x ip IH]; intros pre mp min_ind Hrun; simpl.
  - rewrite app_nil_r. exists mp. split; [apply Hrun|by right].
  - replace (pre ++ x :: ip) with ((pre ++ [x]) ++ ip) by by rewrite <- app_assoc.
    replace (S (length pre)) with (length (pre ++ [x])) by (rewrite length_app; simpl; lia).
    destruct (mp <=? x) eqn:Hx; simpl.
    + apply IH. by apply running_min_snoc_keep.
    + destruct (is_nan x) eqn:Hnan.
      * exists x. split; [|by left].
        rewrite <- app_assoc. rewrite lookup_app_r by lia. by rewrite Nat.sub_diag.
      * apply IH. by eapply running_min_snoc_new.
Qed.

Lemma argmin_selects (a : list float) : a <> [] -> selects a (argmin a).
Proof.
  destruct a as [|x a]; [done|]. intros _. simpl.
  destruct (is_nan x) eqn:Hnan.
  - exists x. split; [reflexivity|by left].
  - apply (argmin_from_selects a [x] x 0).
    repeat split; auto.
    + intros [|j] y Hy; simpl in Hy; [|discriminate].
      injection Hy as <-. by apply leb_refl.
    + intros j y Hj. lia.
Qed.

(** Nothing compares strictly below the selected element. *)
Lemma selects_least a r m j x :
  selects a r -> a !! r = Some m -> a !! j = Some x -> (x <? m) = false.
Proof.
  intros (m' & Hm' & Hcase) Hm Hx. assert (m' = m) as -> by congruence.
  destruct Hcase as [Hnan|(_ & _ & Hle & _)].
  - by apply ltb_nan_r.
  - apply leb_not_ltb. by eapply Hle.
Qed.

(** Among numbers the selected element is below or equal to all. *)
Lemma selects_minimum a r m j x :
  selects a r -> a !! r = Some m -> is_nan m = false -> a !! j = Some x ->
  (m <=? x) = true.
Proof.
  intros (m' & Hm' & Hcase) Hm Hnum Hx. assert (m' = m) as -> by congruence.
  destruct Hcase as [Hnan|(_ & _ & Hle & _)]; [congruence|]. by eapply Hle.
Qed.

(** An element equal to the selected one does not come before it. *)
Lemma selects_first a r m j x :
  selects a r -> a !! r = Some m -> a !! j = Some x -> (x =? m) = true -> r <= j.
Proof.
  intros (m' & Hm' & Hcase) Hm Hx Heq. assert (m' = m) as -> by congruence.
  destruct Hcase as [Hnan|(_ & _ & _ & Hlt)].
  - rewrite eqb_nan_r in Heq by done. discriminate.
  - destruct (le_lt_dec r j) as [|Hj]; [done|].
    rewrite (ltb_not_eqb m x) in Heq; [discriminate|]. by eapply Hlt.
Qed.

(** ** [identify_speaker] *)

Section Identify.
Context {Emb : Type}.
Variable cdist_cosine : Emb -> Emb -> float.

Lemma distances_lookup (e : Emb) (reg : list (string * Emb)) (j : nat) :
  distances cdist_cosine e reg !! j = (fun p => cdist_cosine e p.2) <$> (reg !! j).
Proof. apply map_lookup. Qed.

Lemma selected_is_Some (e : Emb) (reg : list (string * Emb)) :
  reg <> [] ->
  exists name emb,
    selected cdist_cosine e reg = Some (name, emb) /\
    distances cdist_cosine e reg !! argmin (distances cdist_cosine e reg)
    = Some (cdist_cosine e emb).
Proof.
  intros Hreg.
  destruct (argmin_selects (distances cdist_cosine e reg)) as (m & Hm & _).
  { destruct reg; [done|discriminate]. }
  unfold selected. rewrite distances_lookup in Hm |- *.
  destruct (reg !! argmin (distances cdist_cosine e reg)) as [[name emb]|]; [|discriminate].
  by exists name, emb.
Qed.

(** The answer, by cases on the comparison with the threshold. *)
Lemma identify_speaker_selected (e : Emb) (reg : list (string * Emb)) (thr : float)
    name emb :
  selected cdist_cosine e reg = Some (name, emb) ->
  identify_speaker cdist_cosine e reg thr
  = if (cdist_cosine e emb <? thr) then name else "Unknown"%string.
Proof.
  unfold selected, identify_speaker. intros Hsel.
  destruct reg as [|p reg]; [discriminate|].
  set (l := p :: reg) in *. set (i := argmin (distances cdist_cosine e l)) in *.
  rewrite !nth_lookup_default, distances_lookup, map_lookup, Hsel. reflexivity.
Qed.

Lemma identify_speaker_range (e : Emb) (reg : list (string * Emb)) (thr : float) :
  identify_speaker cdist_cosine e reg thr = "Unknown"%string \/
  identify_speaker cdist_cosine e reg thr ∈ map fst reg.
Proof.
  destruct reg as [|p reg]; [by left|].
  destruct (selected_is_Some e (p :: reg)) as (name & emb & Hsel & _); [done|].
  rewrite (identify_speaker_selected e _ thr name emb Hsel).
  destruct (cdist_cosine e emb <? thr); [right|by left].
  apply (list_elem_of_lookup_2 _ (argmin (distances cdist_cosine e (p :: reg)))).
  rewrite map_lookup. unfold selected in Hsel. by rewrite Hsel.
Qed.

(** The answer is a function of the names and of the row of distances. *)
Lemma identify_speaker_by_row (e e' : Emb) (reg reg' : list (string * Emb)) (thr : float) :
  map fst reg = map fst reg' ->
  distances cdist_cosine e reg = distances cdist_cosine e' reg' ->
  identify_speaker cdist_cosine e reg thr = identify_speaker cdist_cosine e' reg' thr.
Proof.
  intros Hnames Hrow. unfold identify_speaker.
  destruct reg as [|p reg], reg' as [|p' reg']; try discriminate; [reflexivity|].
  by rewrite Hnames, Hrow.
Qed.

End Identify.

(** Scenario A and the boundary: a turn equal to Alice's embedding is
    "Alice" under the default threshold; a turn at distance exactly 1 from
    the only profile is "Unknown" under threshold 1 and accepted under the
    next binary64 above it. *)
Example identify_scenarios :
  identify_speaker RegistryExamples.cosine RegistryExamples.east
    RegistryExamples.registry DEFAULT_THRESHOLD = "Alice"%string /\
  RegistryExamples.cosine RegistryExamples.north RegistryExamples.east = 1 /\
  identify_speaker RegistryExamples.cosine RegistryExamples.north
    [("Alice"%string, RegistryExamples.east)] 1 = "Unknown"%string /\
  identify_speaker RegistryExamples.cosine RegistryExamples.north
    [("Alice"%string, RegistryExamples.east)] (next_up 1) = "Alice"%string.
Proof. vm_compute. auto. Qed.

(** C3 as stated fails.  Bob is enrolled, then Alice, from the same
    recording; the directory lists [Alice.npy] before [Bob.npy]; a turn at
    distance 0 from both is answered "Alice", the later enrollment. *)
Lemma earliest_enrolled_does_not_win :
  ~ earliest_enrolled_wins RegistryExamples.cosine.
Proof.
  intros Hrule.
  apply (Hrule RegistryExamples.twins_history RegistryExamples.twins_files
           RegistryExamples.twins_listing RegistryExamples.twins_registry
           RegistryExamples.east DEFAULT_THRESHOLD
           "Bob"%string "Alice"%string RegistryExamples.east RegistryExamples.east).
  - reflexivity.
  - vm_compute. first [reflexivity | apply perm_swap].
  - vm_compute. reflexivity.
  - apply list_elem_of_In. simpl. auto.
  - apply list_elem_of_In. simpl. auto.
  - discriminate.
  - vm_compute. reflexivity.
  - intros p Hp. apply list_elem_of_In in Hp.
    destruct Hp as [<-|[<-|[]]]; vm_compute; reflexivity.
  - vm_compute. reflexivity.
  - exists 0%nat, 1%nat, RegistryExamples.east, RegistryExamples.east.
    repeat split. lia.
  - vm_compute. reflexivity.
Qed.

(** C9. The answer is "Unknown" or a name enrolled in the registry, and
    nothing else; on the empty registry it is "Unknown". *)
Theorem identify_speaker_label {Emb} (cdist_cosine : Emb -> Emb -> float)
    (e : Emb) (reg : list (string * Emb)) (thr : float) :
  (identify_speaker cdist_cosine e reg thr = "Unknown"%string \/
   identify_speaker cdist_cosine e reg thr ∈ map fst reg) /\
  identify_speaker cdist_cosine e [] thr = "Unknown"%string.
Proof.
  split; [apply identify_speaker_range|reflexivity].
Qed.

End RegistryFacts.

(* ================================================================== *)
(** * Properties of the per-chunk loop of local_realtime_transcribe.py *)
(* ================================================================== *)

Module RealtimeFacts.
Import Diarization Realtime.

(** A slice that lies inside the array has [j - i] elements. *)
Lemma slice_length {A} (a : list A) (i j : Z) :
  (0 <= i <= j)%Z -> (j <= Z.of_nat (length a))%Z ->
  Z.of_nat (length (Py.slice a i j)) = (j - i)%Z.
Proof.
  intros Hij Hj. unfold Py.slice, Py.clamp_index.
  destruct (Z.ltb_spec i 0), (Z.ltb_spec j 0); try lia.
  rewrite length_take, length_drop. lia.
Qed.

Section Loop.
Context {A : Type}.
Variable pipeline : list A -> Py.result (list Turn).
Variable transcribe : list A -> Py.result Transcription.
Variable strip : string -> string.

(** With every turn going through, the loop appends, in turn order, what
    each kept turn contributes, and raises nothing. *)
Lemma process_turns_emits (audio : list A) (sr : Z) (turns : list Turn) :
  forall results,
    Forall (turn_goes_through transcribe audio sr) turns ->
    process_turns transcribe strip audio sr turns results
    = (results ++ omap (emitted_for transcribe strip audio sr) turns, None).
Proof.
  induction turns as [|turn turns IH]; intros results Hall; simpl.
  - by rewrite app_nil_r.
  - apply Forall_cons in Hall as [(segment & Hseg & Hlong) Hall].
    unfold emitted_for. rewrite Hseg.
    destruct (Z.ltb_spec (Z.of_nat (length segment)) (sr / 2)) as [Hshort|Hkeep].
    + by apply IH.
    + destruct (Hlong Hkeep) as [result ->].
      rewrite (IH _ Hall), <- app_assoc. reflexivity.
Qed.

(** Whatever happens, each segment emitted repeats the bounds and the
    label of one of the turns. *)
Lemma process_turns_offsets (audio : list A) (sr : Z) (all turns : list Turn) :
  forall results,
    turns ⊆ all ->
    Forall (fun seg => exists turn, turn ∈ all /\
              speaker seg = turn_speaker turn /\
              start seg = turn_start turn /\ end_ seg = turn_end turn) results ->
    Forall (fun seg => exists turn, turn ∈ all /\
              speaker seg = turn_speaker turn /\
              start seg = turn_start turn /\ end_ seg = turn_end turn)
           (process_turns transcribe strip audio sr turns results).1.
Proof.
  induction turns as [|turn turns IH]; intros results Hsub Hres; simpl; [exact Hres|].
  assert (Hin : turn ∈ all) by (apply Hsub; left).
  assert (Hsub' : turns ⊆ all) by (intros t Ht; apply Hsub; by right).
  destruct (turn_segment audio sr turn) as [segment|e]; [|exact Hres].
  destruct (Z.of_nat (length segment) <? sr / 2)%Z; [by apply IH|].
  destruct (transcribe segment) as [result|e]; [|exact Hres].
  apply IH; [exact Hsub'|].
  apply Forall_app. split; [exact Hres|].
  constructor; [|constructor]. by exists turn.
Qed.

End Loop.

End RealtimeFacts.

(* ================================================================== *)
(** * Properties of the file pipeline *)
(* ================================================================== *)

Module FilePipelineFacts.
Import Diarization FilePipeline.

(** ** The divisor of the normalisation *)

Lemma wrap16_small (z : Z) : (-32768 <= z <= 32767)%Z -> wrap16 z = z.
Proof.
  intros Hz. unfold wrap16. rewrite Z.mod_small; lia.
Qed.

(** Away from the most negative value [np.abs] is the magnitude. *)
Lemma np_abs_magnitude (x : Z) : (-32767 <= x <= 32767)%Z -> np_abs x = Z.abs x.
Proof.
  intros Hx. unfold np_abs. apply wrap16_small. lia.
Qed.

(** At the most negative value it is not. *)
Lemma np_abs_minimum : np_abs (-32768) = (-32768)%Z.
Proof. reflexivity. Qed.

Lemma np_max_upper (xs : list Z) : forall a,
  (a <= np_max a xs)%Z /\ Forall (fun x => (x <= np_max a xs)%Z) xs.
Proof.
  unfold np_max. induction xs as [|x xs IH]; intros a; simpl.
  - split; [lia|constructor].
  - destruct (IH (Z.max a x)) as [Ha Hxs]. split; [lia|].
    constructor; [lia|exact Hxs].
Qed.

(** For samples away from the most negative value, the divisor bounds
    every magnitude, and it is positive unless all samples are zero. *)
Lemma peak_bounds (audio : list Z) :
  Forall (fun x => (-32767 <= x <= 32767)%Z) audio ->
  Exists (fun x => x <> 0%Z) audio ->
  exists m, peak audio = Py.Ok m /\ (0 < m)%Z /\
            Forall (fun x => (Z.abs x <= m)%Z) audio.
Proof.
  intros Hrange Hnz. unfold peak.
  destruct audio as [|a rest]; [by apply Exists_nil in Hnz|].
  simpl. eexists. split; [reflexivity|].
  destruct (np_max_upper (map np_abs rest) (np_abs a)) as [Ha Hrest].
  set (m := np_max (np_abs a) (map np_abs rest)) in *. clearbody m.
  assert (Hall : Forall (fun x => (Z.abs x <= m)%Z) (a :: rest)).
  { apply Forall_cons in Hrange as [Hra Hrr]. constructor.
    - by rewrite <- np_abs_magnitude.
    - clear -Hrest Hrr. induction Hrr as [|x xs Hx _ IH]; [constructor|].
      simpl in Hrest. apply Forall_cons in Hrest as [Hx' Hxs].
      constructor; [by rewrite <- np_abs_magnitude|by apply IH]. }
  split; [|exact Hall].
  apply Exists_exists in Hnz as (x & Hx & Hxnz).
  rewrite Forall_forall in Hall. specialize (Hall x Hx). lia.
Qed.

(** ** The loop over turns *)

Section Loop.
Context {Emb : Type}.
Variable cdist_cosine : Emb -> Emb -> float.
Variable embed_utterance : list spec_float -> Py.result Emb.
Variable transcribe : list spec_float -> Py.result Transcription.
Variable strip : string -> string.

Lemma process_turns_prints (audio : list spec_float) (sr : Z)
    (enrolled : list (string * Emb)) (turns : list Turn) :
  forall out,
    Forall (turn_goes_through embed_utterance transcribe audio sr) turns ->
    process_turns cdist_cosine embed_utterance transcribe strip audio sr enrolled turns out
    = (out ++ omap (printed_for cdist_cosine embed_utterance transcribe strip
                      audio sr enrolled) turns, None).
Proof.
  induction turns as [|turn turns IH]; intros out Hall; simpl.
  - by rewrite app_nil_r.
  - apply Forall_cons in Hall as [(segment & Hseg & Hlong) Hall].
    unfold printed_for. rewrite Hseg.
    destruct (Z.ltb_spec (Z.of_nat (length segment)) sr) as [Hshort|Hkeep].
    + by apply IH.
    + destruct (Hlong Hkeep) as [[embedding ->] [result ->]].
      rewrite (IH _ Hall), <- app_assoc. reflexivity.
Qed.

End Loop.

(** C10.  The divisor is computed on [int16], where the magnitude of
    -32768 is -32768.  A 16-bit file with samples [-32768, 0] is not all
    zero, yet its divisor is 0 and its normalised samples are minus
    infinity and NaN; with samples [-32768, 100] the divisor is 100 and
    the first normalised sample is -327.68, below -1. *)
Theorem normalize_at_int16_minimum :
  np_abs (-32768) = (-32768)%Z /\
  peak [-32768; 0]%Z = Py.Ok 0%Z /\
  normalize [-32768; 0]%Z = Py.Ok [S754_infinity true; S754_nan] /\
  peak [-32768; 100]%Z = Py.Ok 100%Z /\
  normalize [-32768; 100]%Z
  = Py.Ok [S754_finite true 10737418 (-15); S754_finite false 8388608 (-23)] /\
  SFltb (S754_finite true 10737418 (-15)) (f32_of_int (-1)) = true.
Proof. repeat split; vm_compute; reflexivity. Qed.

(** Hence the bound of C10 does not hold of every 16-bit file that is not
    all zero. *)
Lemma normalization_is_not_within_unit : ~ normalized_within_unit.
Proof.
  intros Hrule.
  destruct (Hrule [-32768; 0]%Z) as (m & out & Hpeak & Hm & _).
  - repeat constructor; unfold int16; lia.
  - left. discriminate.
  - vm_compute in Hpeak. congruence.
Qed.

End FilePipelineFacts.

(* ================================================================== *)
(** * Turns: what is kept, what is emitted, what a failure costs *)
(* ================================================================== *)

Module TurnFacts.
Import Diarization.

(** C5 (as amended).  In both loops a turn is dropped, silently and before
    Whisper is called, exactly when the slice of samples cut for it is
    shorter than the minimum: [sample_rate // 2] samples in the realtime
    loop, [sr] samples (one second) in the file loop.  Every other turn is
    transcribed, and the output is what the kept turns contribute, in turn
    order.  The test is on the number of samples after truncation to
    indices, not on the duration in seconds. *)
Theorem short_segments_are_skipped {A Emb}
    (transcribe : list A -> Py.result Transcription) (strip : string -> string)
    (audio : list A) (sample_rate : Z) (turns : list Turn)
    (cdist_cosine : Emb -> Emb -> float)
    (embed_utterance : list spec_float -> Py.result Emb)
    (transcribe32 : list spec_float -> Py.result Transcription)
    (samples : list spec_float) (sr : Z) (enrolled : list (string * Emb))
    (turns32 : list Turn) :
  Forall (Realtime.turn_goes_through transcribe audio sample_rate) turns ->
  Forall (FilePipeline.turn_goes_through embed_utterance transcribe32 samples sr) turns32 ->
  (Realtime.process_turns transcribe strip audio sample_rate turns []
   = (omap (Realtime.emitted_for transcribe strip audio sample_rate) turns, None) /\
   forall turn segment,
     turn ∈ turns ->
     turn_segment audio sample_rate turn = Py.Ok segment ->
     (Realtime.emitted_for transcribe strip audio sample_rate turn = None
      <-> (Z.of_nat (length segment) < sample_rate / 2)%Z)) /\
  (FilePipeline.process_turns cdist_cosine embed_utterance transcribe32 strip
     samples sr enrolled turns32 []
   = (omap (FilePipeline.printed_for cdist_cosine embed_utterance transcribe32 strip
              samples sr enrolled) turns32, None) /\
   forall turn segment,
     turn ∈ turns32 ->
     turn_segment samples sr turn = Py.Ok segment ->
     (FilePipeline.printed_for cdist_cosine embed_utterance transcribe32 strip
        samples sr enrolled turn = None
      <-> (Z.of_nat (length segment) < sr)%Z)).
Proof.
  intros Hall Hall32. split; split.
  - by rewrite RealtimeFacts.process_turns_emits.
  - intros turn segment Hin Hseg.
    rewrite Forall_forall in Hall. destruct (Hall turn Hin) as (segment' & Hseg' & Hlong).
    assert (segment' = segment) as -> by congruence.
    unfold Realtime.emitted_for. rewrite Hseg.
    destruct (Z.ltb_spec (Z.of_nat (length segment)) (sample_rate / 2)) as [Hshort|Hkeep].
    + by split.
    + destruct (Hlong Hkeep) as [result ->]. split; [discriminate|lia].
  - by rewrite FilePipelineFacts.process_turns_prints.
  - intros turn segment Hin Hseg.
    rewrite Forall_forall in Hall32. destruct (Hall32 turn Hin) as (segment' & Hseg' & Hlong).
    assert (segment' = segment) as -> by congruence.
    unfold FilePipeline.printed_for. rewrite Hseg.
    destruct (Z.ltb_spec (Z.of_nat (length segment)) sr) as [Hshort|Hkeep].
    + by split.
    + destruct (Hlong Hkeep) as [[embedding ->] [result ->]]. split; [discriminate|lia].
Qed.

Lemma short_segments_are_skipped_witness :
  (Realtime.process_turns RealtimeExamples.whisper RealtimeExamples.no_strip
     RealtimeExamples.short_audio 8 [RealtimeExamples.one_turn; RealtimeExamples.brief] []
   = (omap (Realtime.emitted_for RealtimeExamples.whisper RealtimeExamples.no_strip
              RealtimeExamples.short_audio 8)
        [RealtimeExamples.one_turn; RealtimeExamples.brief], None) /\
   forall turn segment,
     turn ∈ [RealtimeExamples.one_turn; RealtimeExamples.brief] ->
     turn_segment RealtimeExamples.short_audio 8 turn = Py.Ok segment ->
     (Realtime.emitted_for RealtimeExamples.whisper RealtimeExamples.no_strip
        RealtimeExamples.short_audio 8 turn = None
      <-> (Z.of_nat (length segment) < 8 / 2)%Z)) /\
  (FilePipeline.process_turns RegistryExamples.cosine RealtimeExamples.encoder
     RealtimeExamples.whisper32 RealtimeExamples.no_strip
     RealtimeExamples.short_samples 8 RegistryExamples.registry
     [RealtimeExamples.one_turn; RealtimeExamples.brief] []
   = (omap (FilePipeline.printed_for RegistryExamples.cosine RealtimeExamples.encoder
              RealtimeExamples.whisper32 RealtimeExamples.no_strip
              RealtimeExamples.short_samples 8 RegistryExamples.registry)
        [RealtimeExamples.one_turn; RealtimeExamples.brief], None) /\
   forall turn segment,
     turn ∈ [RealtimeExamples.one_turn; RealtimeExamples.brief] ->
     turn_segment RealtimeExamples.short_samples 8 turn = Py.Ok segment ->
     (FilePipeline.printed_for RegistryExamples.cosine RealtimeExamples.encoder
        RealtimeExamples.whisper32 RealtimeExamples.no_strip
        RealtimeExamples.short_samples 8 RegistryExamples.registry turn = None
      <-> (Z.of_nat (length segment) < 8)%Z)).
Proof.
  apply (short_segments_are_skipped RealtimeExamples.whisper RealtimeExamples.no_strip
           RealtimeExamples.short_audio 8
           [RealtimeExamples.one_turn; RealtimeExamples.brief]
           RegistryExamples.cosine RealtimeExamples.encoder RealtimeExamples.whisper32
           RealtimeExamples.short_samples 8 RegistryExamples.registry
           [RealtimeExamples.one_turn; RealtimeExamples.brief]).
  - repeat constructor.
    + exists (replicate 8 0%Z). split; [vm_compute; reflexivity|].
      intros _. eexists. reflexivity.
    + exists (replicate 2 0%Z). split; [vm_compute; reflexivity|].
      intros _. eexists. reflexivity.
  - repeat constructor.
    + exists (replicate 8 (S754_zero false)). split; [vm_compute; reflexivity|].
      intros _. split; eexists; reflexivity.
    + exists (replicate 2 (S754_zero false)). split; [vm_compute; reflexivity|].
      intros _. split; eexists; reflexivity.
Defined.

(** What the small instance prints: the one-second turn is kept by both
    loops' tests at 8 samples per second, the quarter-second turn by
    neither. *)
Example turn_filter_runs :
  Realtime.process_turns RealtimeExamples.whisper RealtimeExamples.no_strip
    RealtimeExamples.short_audio 8 [RealtimeExamples.one_turn; RealtimeExamples.brief] []
  = ([{| Realtime.speaker := "SPEAKER_00"; Realtime.start := 1; Realtime.end_ := 2;
         Realtime.language := "en"; Realtime.text := "hi" |}], None) /\
  FilePipeline.process_turns RegistryExamples.cosine RealtimeExamples.encoder
    RealtimeExamples.whisper32 RealtimeExamples.no_strip
    RealtimeExamples.short_samples 8 RegistryExamples.registry
    [RealtimeExamples.one_turn; RealtimeExamples.brief] []
  = ([{| FilePipeline.line_speaker := "Alice"; FilePipeline.line_language := "en";
         FilePipeline.line_text := "hi" |}], None).
Proof. split; vm_compute; reflexivity. Qed.

(** C5 as stated fails.  At 16 kHz a turn from 1/2048 s to 16399/32768 s
    lasts 16383/32768 s, less than half a second, yet its bounds truncate
    to samples 7 and 8007: the slice has 8000 samples, the test
    [len(segment) < sample_rate // 2] is false and the turn is
    transcribed. *)
Lemma short_turn_is_transcribed :
  ~ Realtime.short_turns_are_discarded RealtimeExamples.whisper RealtimeExamples.no_strip.
Proof.
  intros Hrule.
  specialize (Hrule RealtimeExamples.silence RealtimeExamples.near_half).
  assert (Hshort : (turn_end RealtimeExamples.near_half
                    - turn_start RealtimeExamples.near_half
                    <? Realtime.MIN_DURATION)%float = true) by (vm_compute; reflexivity).
  specialize (Hrule Hshort). vm_compute in Hrule. discriminate.
Qed.

(** The same turn, step by step. *)
Example near_half_trace :
  ((turn_end RealtimeExamples.near_half - turn_start RealtimeExamples.near_half)%float
   = 0x1.fff8p-2%float) /\
  Py.int_of_float (turn_start RealtimeExamples.near_half * Py.float_of_int 16000)%float
  = Py.Ok 7%Z /\
  Py.int_of_float (turn_end RealtimeExamples.near_half * Py.float_of_int 16000)%float
  = Py.Ok 8007%Z /\
  (Realtime.SAMPLE_RATE / 2 = 8000)%Z /\
  Realtime.process_turns RealtimeExamples.whisper RealtimeExamples.no_strip
    RealtimeExamples.silence Realtime.SAMPLE_RATE [RealtimeExamples.near_half] []
  = ([{| Realtime.speaker := "SPEAKER_00";
         Realtime.start := 0x1p-11; Realtime.end_ := 0x1.003cp-1;
         Realtime.language := "en"; Realtime.text := "hi" |}], None).
Proof. repeat split; vm_compute; reflexivity. Qed.

(** C6 (as amended).  Every segment the chunk emits, also before an error,
    repeats the label and the bounds of one of the chunk's turns: its
    [start] and [end] are the turn's offsets within the chunk, with no base
    timestamp added. *)
Theorem segment_times_are_turn_offsets {A}
    (pipeline : list A -> Py.result (list Turn))
    (transcribe : list A -> Py.result Transcription) (strip : string -> string)
    (chunk : list A) (sample_rate : Z) (seg : Realtime.Segment) :
  seg ∈ (Realtime.process_chunk pipeline transcribe strip chunk sample_rate).1 ->
  exists turns turn,
    pipeline chunk = Py.Ok turns /\ turn ∈ turns /\
    Realtime.speaker seg = turn_speaker turn /\
    Realtime.start seg = turn_start turn /\
    Realtime.end_ seg = turn_end turn.
Proof.
  unfold Realtime.process_chunk. intros Hin.
  destruct (pipeline chunk) as [turns|e]; [|by apply elem_of_nil in Hin].
  pose proof (RealtimeFacts.process_turns_offsets transcribe strip chunk sample_rate
                turns turns [] (reflexivity _) (List.Forall_nil _)) as Hall.
  rewrite Forall_forall in Hall.
  destruct (Hall seg Hin) as (turn & Hturn & Hrest).
  by exists turns, turn.
Qed.

Lemma segment_times_are_turn_offsets_witness :
  exists turns turn,
    RealtimeExamples.diarizer_ok RealtimeExamples.short_audio = Py.Ok turns /\
    turn ∈ turns /\
    "SPEAKER_00"%string = turn_speaker turn /\
    1%float = turn_start turn /\
    2%float = turn_end turn.
Proof.
  apply (segment_times_are_turn_offsets RealtimeExamples.diarizer_ok
           RealtimeExamples.whisper RealtimeExamples.no_strip
           RealtimeExamples.short_audio 8
           {| Realtime.speaker := "SPEAKER_00"; Realtime.start := 1; Realtime.end_ := 2;
              Realtime.language := "en"; Realtime.text := "hi" |}).
  vm_compute. constructor.
Defined.

(** C6 as stated fails.  Two five-second frames make two chunks; the
    diarizer reports a turn from 1 s to 2 s in each.  The segment emitted
    for the second chunk, whose base timestamp is 5 s, starts at 1, not
    at 6. *)
Lemma segment_times_are_not_absolute :
  ~ Realtime.segments_carry_absolute_times RealtimeExamples.diarizer_ok
      RealtimeExamples.whisper RealtimeExamples.no_strip.
Proof.
  intros Hrule.
  set (seg := {| Realtime.speaker := "SPEAKER_00"; Realtime.start := 1; Realtime.end_ := 2;
                 Realtime.language := "en"; Realtime.text := "hi" |}).
  destruct (Hrule [RealtimeExamples.silence; RealtimeExamples.silence] [[]]
              [[seg]; [seg]] 1%nat [seg] seg)
    as (chunk & turns & turn & Hturns & Hin & Hstart & _).
  - vm_compute. reflexivity.
  - reflexivity.
  - constructor.
  - injection Hturns as <-.
    apply list_elem_of_singleton in Hin as ->.
    apply (f_equal (fun x => (x =? 1)%float)) in Hstart.
    vm_compute in Hstart. discriminate.
Qed.

(** C4 as stated fails for the diarizer.  [main] of the realtime script
    catches [KeyboardInterrupt] only: when the diarizer raises on the first
    chunk the program ends, and the second chunk is never processed. *)
Lemma diarizer_failure_is_fatal :
  ~ Realtime.adapter_failures_are_survived RealtimeExamples.diarizer_down
      RealtimeExamples.whisper RealtimeExamples.no_strip.
Proof.
  intros Hrule.
  destruct (Hrule [RealtimeExamples.silence; RealtimeExamples.silence])
    as (buffer & out & Hrun).
  vm_compute in Hrun. discriminate.
Qed.

Example realtime_run_with_failure :
  Realtime.main RealtimeExamples.diarizer_down RealtimeExamples.whisper
    RealtimeExamples.no_strip [RealtimeExamples.silence; RealtimeExamples.silence]
  = Realtime.Crashed "diarizer" [[]].
Proof. vm_compute. reflexivity. Qed.

End TurnFacts.

(* ================================================================== *)
(** * Further properties of capture_and_translate.py *)
(* ================================================================== *)

Module CaptureMore.
Import Capture CaptureReports.

(** ** [phrase in result] *)

Lemma prefix_app (p s : string) :
  String.prefix p s = true <-> exists post, s = (p +:+ post)%string.
Proof.
  revert p. induction s as [|b s IH]; intros [|a p]; simpl.
  - split; [intros _; by exists ""%string|done].
  - split; [done|intros [post H]; discriminate].
  - split; [intros _; by exists (String b s)|done].
  - destruct (Ascii.ascii_dec a b) as [->|Hne].
    + rewrite IH. split; intros [post H]; exists post; [by rewrite H|by injection H].
    + split; [done|]. intros [post H]. injection H as H1 H2. congruence.
Qed.

Lemma index_zero_spec (p s : string) :
  String.index 0 p s <> None <-> substring_of p s.
Proof.
  unfold substring_of. induction s as [|b s IH].
  - simpl. destruct p as [|a p]; split; try done.
    + intros _. by exists ""%string, ""%string.
    + intros (pre & post & H). destruct pre; discriminate.
  - cbn [String.index].
    destruct (String.prefix p (String b s)) eqn:Hpre.
    + split; [intros _|done].
      apply prefix_app in Hpre as [post Hpost]. by exists ""%string, post.
    + split.
      * intros H. destruct (String.index 0 p s); [|done].
        destruct IH as [IH _]. destruct IH as (pre & post & ->); [done|].
        by exists (String b pre), post.
      * intros (pre & post & H). destruct pre as [|a pre].
        -- simpl in H. assert (String.prefix p (String b s) = true) as Hp
             by (apply prefix_app; by exists post).
           congruence.
        -- injection H as -> H. destruct IH as [_ IH].
           destruct (String.index 0 p s); [done|].
           exfalso. apply IH; [|done]. by exists pre, post.
Qed.

Lemma contains_spec (phrase text : string) :
  Py.contains phrase text = true <-> substring_of phrase text.
Proof.
  rewrite <- index_zero_spec. unfold Py.contains.
  destruct (String.index 0 phrase text); split; try done.
Qed.

(** X1. A result is displayed exactly when it is not empty and none of the
    filtered phrases occurs anywhere inside it. *)
Theorem should_display_result_iff (result : string) :
  should_display_result result = true <->
  result <> ""%string /\
  forall phrase, phrase ∈ FILTERED_PHRASES -> ~ substring_of phrase result.
Proof.
  unfold should_display_result.
  destruct (String.eqb_spec result "") as [->|Hne].
  - split; [done|]. by intros [H _].
  - rewrite negb_true_iff. split.
    + intros Hex. split; [done|]. intros phrase Hin Hsub.
      apply contains_spec in Hsub.
      assert (existsb (fun phrase => Py.contains phrase result) FILTERED_PHRASES = true);
        [|congruence].
      apply existsb_exists. exists phrase. split; [by apply list_elem_of_In|done].
    + intros [_ Hnone]. apply not_true_is_false. intros Hex.
      apply existsb_exists in Hex as (phrase & Hin & Hc).
      apply (Hnone phrase); [by apply list_elem_of_In|by apply contains_spec].
Qed.

(** ** What the run has reported *)

Section Reports.
Context {A : Type}.
Variable chunk_samples : nat.
Variable env : Env A.

Lemma line_answers_mono (chunks more : list (nat * list A)) (p : nat * Line) :
  line_answers env chunks p -> line_answers env (chunks ++ more) p.
Proof.
  intros (chunk & Hin & Hans). exists chunk. split; [|done].
  apply elem_of_app. by left.
Qed.

Lemma sorted_snoc (l : list nat) (x : nat) :
  StronglySorted lt l -> Forall (fun y => y < x) l -> StronglySorted lt (l ++ [x]).
Proof.
  intros Hl Hx. apply StronglySorted_app_2; [|done|repeat constructor].
  intros y z Hy ->%list_elem_of_singleton.
  rewrite Forall_forall in Hx. by apply Hx.
Qed.

(** The request adds at most one line, about its own window, and that
    line answers it. *)
Lemma request_reported (st : State A) (chunk : list A) :
  well_reported env st ->
  save_ok env (chunk_idx st) = true ->
  well_reported env
    {| buffer := drop chunk_samples (buffer st); chunk_idx := S (chunk_idx st);
       emitted := emitted st ++ [(chunk_idx st, chunk)];
       printed := request env (chunk_idx st) chunk (printed st) |}.
Proof.
  intros (Hlines & Hsorted & Hsaved) Hsave.
  assert (Hold : Forall (fun p => p.1 < S (chunk_idx st) /\
                   line_answers env (emitted st ++ [(chunk_idx st, chunk)]) p)
                 (printed st)).
  { eapply Forall_impl; [exact Hlines|]. intros p [Hlt Hans].
    split; [lia|by apply line_answers_mono]. }
  assert (Hbelow : Forall (fun y => y < chunk_idx st) (map fst (printed st))).
  { clear -Hlines. induction Hlines as [|p l [Hp _] _ IH]; constructor; auto. }
  assert (Hmine : (chunk_idx st, chunk) ∈ emitted st ++ [(chunk_idx st, chunk)]).
  { apply elem_of_app. right. by apply list_elem_of_singleton. }
  unfold well_reported, request. simpl. repeat split.
  - destruct (predict env (chunk_idx st) chunk) as [result|e] eqn:Hpred;
      [destruct (should_display_result result) eqn:Hshow|]; try exact Hold.
    + apply Forall_app. split; [exact Hold|]. apply Forall_singleton.
      split; simpl; [lia|]. exists chunk. by repeat split.
    + apply Forall_app. split; [exact Hold|]. apply Forall_singleton.
      split; simpl; [lia|]. by exists chunk.
  - destruct (predict env (chunk_idx st) chunk) as [result|e];
      [destruct (should_display_result result)|]; try exact Hsorted;
      rewrite map_app; by apply sorted_snoc.
  - intros j Hj. destruct (decide (j = chunk_idx st)) as [->|Hne]; [done|].
    apply Hsaved. lia.
Qed.

Lemma process_complete_chunks_reported fuel : forall st st',
  well_reported env st ->
  final (process_complete_chunks chunk_samples env fuel st) = Some st' ->
  well_reported env st' /\
  (process_complete_chunks chunk_samples env fuel st = Fatal st' ->
   stopped_at_save env st').
Proof.
  induction fuel as [|fuel IH]; intros st st' Hst; simpl; [discriminate|].
  destruct (chunk_samples <=? length (buffer st))%nat.
  - destruct (save_ok env (chunk_idx st)) eqn:Hsave.
    + intros Hfin. apply (IH _ st'); [|exact Hfin]. by apply request_reported.
    + intros [= <-]. destruct Hst as (Hlines & Hsorted & Hsaved). split.
      * repeat split; simpl; auto.
        eapply Forall_impl; [exact Hlines|]. intros p [Hlt Hans].
        split; [done|by apply line_answers_mono].
      * intros _. split; [exact Hsave|]. simpl.
        exists (take chunk_samples (buffer st)). apply last_snoc.
  - intros [= <-]. split; [exact Hst|discriminate].
Qed.

Lemma feed_reported fuel frames : forall st st',
  well_reported env st ->
  final (feed chunk_samples env fuel frames st) = Some st' ->
  well_reported env st' /\
  (feed chunk_samples env fuel frames st = Fatal st' -> stopped_at_save env st').
Proof.
  induction frames as [|frame frames IH]; intros st st' Hst; simpl.
  - intros [= <-]. split; [exact Hst|discriminate].
  - set (t := {| buffer := buffer st ++ frame |}).
    assert (Ht : well_reported env t) by exact Hst.
    pose proof (process_complete_chunks_reported fuel t) as Hstep.
    destruct (process_complete_chunks chunk_samples env fuel t) as [t1|t1|]; simpl.
    + intros Hfin. apply (IH t1 st'); [|exact Hfin]. by apply (Hstep t1 Ht).
    + intros [= <-]. by apply (Hstep t1 Ht).
    + discriminate.
Qed.

Lemma well_reported_init : well_reported env init.
Proof. repeat split; simpl; try constructor. intros j Hj. lia. Qed.

End Reports.

(** X2. Whatever the endpoint and the disk do, in the state a run has
    reached every printed line is about a window already cut, and is what
    the endpoint answered for that window: a shown result is the endpoint's,
    passed the display filter and carries the clock's stamp, an error line
    is the exception it raised.  Lines come in strictly increasing window
    order, so no window is reported twice. *)
Theorem printed_lines_answer_windows {A} (chunk_samples : nat) (env : Env A)
    (stream_opens : bool) (fuel : nat) (frames : list (list A)) (st : State A) :
  final (main chunk_samples env stream_opens fuel frames) = Some st ->
  Forall (fun p => p.1 < chunk_idx st /\ line_answers env (emitted st) p) (printed st) /\
  StronglySorted lt (map fst (printed st)).
Proof.
  unfold main. destruct stream_opens.
  - intros Hfin.
    destruct (feed_reported chunk_samples env fuel frames init st
                (well_reported_init env) Hfin) as [(Hlines & Hsorted & _) _].
    by split.
  - intros [= <-]. split; constructor.
Qed.

Lemma printed_lines_answer_windows_witness :
  Forall (fun p => p.1 < 2 /\
            line_answers CaptureExamples.env_fail1 [(0, [1; 2; 3]); (1, [4; 5; 6])] p)
         [(0, Shown "120000" "hello"); (1, ApiError "timeout")] /\
  StronglySorted lt (map fst [(0, Shown "120000" "hello"); (1, ApiError "timeout")]).
Proof.
  apply (printed_lines_answer_windows 3 CaptureExamples.env_fail1 true 8
           CaptureExamples.frames
           {| buffer := [7]; chunk_idx := 2;
              emitted := [(0, [1; 2; 3]); (1, [4; 5; 6])];
              printed := [(0, Shown "120000" "hello"); (1, ApiError "timeout")] |}).
  reflexivity.
Defined.

(** X3. A run ends only at a save that failed: when [main] returns through
    its outer handler although the stream opened, the window numbered
    [chunk_idx] had been cut and could not be saved, every earlier window
    was saved, and nothing was printed about the failing window. *)
Theorem fatal_only_at_failed_save {A} (chunk_samples : nat) (env : Env A)
    (fuel : nat) (frames : list (list A)) (st : State A) :
  main chunk_samples env true fuel frames = Fatal st ->
  save_ok env (chunk_idx st) = false /\
  (forall j, j < chunk_idx st -> save_ok env j = true) /\
  (exists chunk, last (emitted st) = Some (chunk_idx st, chunk)) /\
  Forall (fun p => p.1 <> chunk_idx st) (printed st).
Proof.
  unfold main. intros Hrun.
  destruct (feed_reported chunk_samples env fuel frames init st (well_reported_init env))
    as [(Hlines & _ & Hsaved) Hstop]; [by rewrite Hrun|].
  destruct (Hstop Hrun) as [Hsave Hlast].
  repeat split; auto.
  eapply Forall_impl; [exact Hlines|]. intros p [Hlt _]. lia.
Qed.

Lemma fatal_only_at_failed_save_witness :
  save_ok CaptureExamples.env_disk_full 1 = false /\
  (forall j, j < 1 -> save_ok CaptureExamples.env_disk_full j = true) /\
  (exists chunk, last [(0, [1; 2; 3]); (1, [4; 5; 6])] = Some (1, chunk)) /\
  Forall (fun p : nat * Line => p.1 <> 1) [(0, Shown "120000" "hello")].
Proof.
  apply (fatal_only_at_failed_save 3 CaptureExamples.env_disk_full 8
           CaptureExamples.frames
           {| buffer := []; chunk_idx := 1;
              emitted := [(0, [1; 2; 3]); (1, [4; 5; 6])];
              printed := [(0, Shown "120000" "hello")] |}).
  reflexivity.
Defined.

(** ** Runs that may end early *)

Section Runs.
Context {A : Type}.
Variable chunk_samples : nat.
Hypothesis chunk_samples_pos : 0 < chunk_samples.
Variable env : Env A.

(** With fuel for the buffer, a pass stops: it waits with less than a
    window left, or it ends at a save. *)
Lemma process_complete_chunks_stops (input : list A) fuel : forall st,
  length (buffer st) < fuel ->
  assembled chunk_samples input st ->
  match process_complete_chunks chunk_samples env fuel st with
  | Waiting st' =>
      assembled chunk_samples input st' /\ length (buffer st') < chunk_samples
  | Fatal _ => True
  | Diverges => False
  end.
Proof.
  induction fuel as [|fuel IH]; intros st Hfuel Hst; [lia|].
  simpl. destruct (Nat.leb_spec chunk_samples (length (buffer st))) as [Hle|Hlt];
    [|by split].
  destruct (save_ok env (chunk_idx st)); [|done].
  apply IH.
  - simpl. rewrite length_drop. lia.
  - destruct Hst as (Hin & Hfull & Hidx). repeat split; simpl.
    + rewrite CaptureFacts.samples_of_snoc, <- app_assoc, take_drop. exact Hin.
    + apply Forall_app. split; [exact Hfull|].
      apply Forall_singleton. simpl. rewrite length_take. lia.
    + rewrite map_app, Hidx. symmetry. apply (seq_S (chunk_idx st) 0).
Qed.

Lemma feed_stops fuel frames : forall st (input : list A),
  length input + length (concat frames) < fuel ->
  assembled chunk_samples input st ->
  match feed chunk_samples env fuel frames st with
  | Waiting st' =>
      assembled chunk_samples (input ++ concat frames) st' /\
      (length (buffer st) < chunk_samples -> length (buffer st') < chunk_samples)
  | Fatal _ => True
  | Diverges => False
  end.
Proof.
  induction frames as [|frame frames IH]; intros st input Hfuel Hst; simpl.
  - by rewrite app_nil_r.
  - simpl in Hfuel. rewrite length_app in Hfuel.
    set (t := {| buffer := buffer st ++ frame |}).
    assert (Ht : assembled chunk_samples (input ++ frame) t).
    { destruct Hst as (Hin & Hfull & Hidx). repeat split; simpl; auto.
      rewrite app_assoc. by rewrite Hin. }
    pose proof (process_complete_chunks_stops (input ++ frame) fuel t) as Hstep.
    destruct (process_complete_chunks chunk_samples env fuel t) as [t1|t1|]; [|done|].
    + destruct Hstep as [Ht1 Hlt1]; [|done|].
      { pose proof (CaptureFacts.assembled_length chunk_samples chunk_samples_pos _ _ Ht)
          as Hlen. rewrite length_app in Hlen. simpl in *. lia. }
      specialize (IH t1 (input ++ frame)).
      destruct (feed chunk_samples env fuel frames t1); [|done|].
      * destruct IH as [Hacc Hlt]; [rewrite length_app; lia|done|].
        rewrite app_assoc. split; [done|auto].
      * apply IH; [rewrite length_app; lia|done].
    + apply Hstep; [|done].
      pose proof (CaptureFacts.assembled_length chunk_samples chunk_samples_pos _ _ Ht)
        as Hlen. rewrite length_app in Hlen. simpl in *. lia.
Qed.

(** The lines printed are those of the windows requested so far. *)
Lemma process_complete_chunks_lines fuel : forall st st',
  printed st = lines_of env (emitted st) ->
  process_complete_chunks chunk_samples env fuel st = Waiting st' ->
  printed st' = lines_of env (emitted st').
Proof.
  induction fuel as [|fuel IH]; intros st st' Hst; simpl; [discriminate|].
  destruct (chunk_samples <=? length (buffer st))%nat; [|by intros [= <-]].
  destruct (save_ok env (chunk_idx st)); [|discriminate].
  apply IH. simpl. unfold lines_of. rewrite foldl_app. simpl.
  by rewrite Hst.
Qed.

Lemma feed_lines fuel frames : forall st st',
  printed st = lines_of env (emitted st) ->
  feed chunk_samples env fuel frames st = Waiting st' ->
  printed st' = lines_of env (emitted st').
Proof.
  induction frames as [|frame frames IH]; intros st st' Hst; simpl.
  - by intros [= <-].
  - set (t := {| buffer := buffer st ++ frame |}).
    pose proof (process_complete_chunks_lines fuel t) as Hstep.
    destruct (process_complete_chunks chunk_samples env fuel t) as [t1|t1|];
      try discriminate.
    apply IH. by apply Hstep.
Qed.

End Runs.

(** Full windows followed by a short leftover spell a sample stream in one
    way only. *)
Lemma windows_unique {A} (n : nat) (ws ws' : list (list A)) (b b' : list A) :
  Forall (fun w => length w = n) ws -> Forall (fun w => length w = n) ws' ->
  length b < n -> length b' < n ->
  concat ws ++ b = concat ws' ++ b' ->
  ws = ws' /\ b = b'.
Proof.
  intros Hws. revert ws'.
  induction Hws as [|w ws Hw _ IH]; intros ws' Hws' Hb Hb' Heq.
  - destruct Hws' as [|w' ws' Hw' _]; [done|].
    simpl in Heq. apply (f_equal length) in Heq.
    rewrite !length_app in Heq. lia.
  - destruct Hws' as [|w' ws' Hw' Hws'].
    + simpl in Heq. apply (f_equal length) in Heq.
      rewrite !length_app in Heq. lia.
    + simpl in Heq. rewrite <- !app_assoc in Heq.
      apply app_inj_1 in Heq as [-> Heq]; [|congruence].
      destruct (IH ws' Hws' Hb Hb' Heq) as [-> ->]. done.
Qed.

Lemma numbered_unique {A} (cs cs' : list (nat * list A)) :
  map fst cs = map fst cs' -> map snd cs = map snd cs' -> cs = cs'.
Proof.
  revert cs'. induction cs as [|[i w] cs IH]; intros [|[i' w'] cs']; simpl;
    try done.
  intros [= -> H1] [= -> H2]. f_equal. by apply IH.
Qed.

(** X4. The loop cuts one window for every [chunk_samples] samples it has
    received and none besides: at rest, the number of windows cut and the
    next sequence number both equal the number of samples received divided
    (rounding down) by the window size. *)
Theorem window_count {A} (chunk_samples : nat) (env : Env A) (fuel : nat)
    (frames : list (list A)) :
  0 < chunk_samples ->
  (forall i, save_ok env i = true) ->
  length (concat frames) < fuel ->
  exists st,
    main chunk_samples env true fuel frames = Waiting st /\
    length (emitted st) = length (concat frames) / chunk_samples /\
    chunk_idx st = length (concat frames) / chunk_samples.
Proof.
  intros Hpos Hsave Hfuel.
  destruct (CaptureFacts.main_waits chunk_samples Hpos env fuel frames Hsave Hfuel)
    as (st & Hrun & Hacc & Hlt).
  pose proof (CaptureFacts.assembled_length chunk_samples Hpos _ _ Hacc) as Hlen.
  assert (Hn : length (emitted st) = length (concat frames) / chunk_samples).
  { apply (Nat.div_unique _ _ _ (length (buffer st))); [lia|]. lia. }
  exists st. repeat split; auto.
  destruct Hacc as (_ & _ & Hidx). apply (f_equal length) in Hidx.
  rewrite length_map, length_seq in Hidx. lia.
Qed.

Lemma window_count_witness :
  exists st,
    main 3 CaptureExamples.env_ok true 8 CaptureExamples.frames = Waiting st /\
    length (emitted st) = length (concat CaptureExamples.frames) / 3 /\
    chunk_idx st = length (concat CaptureExamples.frames) / 3.
Proof.
  apply (window_count 3 CaptureExamples.env_ok 8 CaptureExamples.frames).
  - lia.
  - reflexivity.
  - simpl. lia.
Defined.

(** X5. How the samples arrive in frames does not matter: two framings of
    the same sample stream leave the loop in the same state, with the same
    windows under the same numbers, the same leftover and the same lines
    printed. *)
Theorem framing_does_not_matter {A} (chunk_samples : nat) (env : Env A) (fuel : nat)
    (frames frames' : list (list A)) :
  0 < chunk_samples ->
  (forall i, save_ok env i = true) ->
  length (concat frames) < fuel ->
  concat frames = concat frames' ->
  exists st,
    main chunk_samples env true fuel frames = Waiting st /\
    main chunk_samples env true fuel frames' = Waiting st.
Proof.
  intros Hpos Hsave Hfuel Hsame.
  destruct (CaptureFacts.main_waits chunk_samples Hpos env fuel frames Hsave Hfuel)
    as (st & Hrun & Hacc & Hlt).
  destruct (CaptureFacts.main_waits chunk_samples Hpos env fuel frames' Hsave)
    as (st' & Hrun' & Hacc' & Hlt'); [by rewrite <- Hsame|].
  exists st. split; [exact Hrun|]. rewrite Hrun'. f_equal.
  pose proof (feed_lines chunk_samples env fuel frames init st eq_refl Hrun) as Hpr.
  pose proof (feed_lines chunk_samples env fuel frames' init st' eq_refl Hrun') as Hpr'.
  destruct Hacc as (Hin & Hfull & Hidx), Hacc' as (Hin' & Hfull' & Hidx').
  rewrite <- Hsame in Hin'.
  destruct (windows_unique chunk_samples (map snd (emitted st')) (map snd (emitted st))
              (buffer st') (buffer st)) as [Hws Hb]; auto.
  { clear -Hfull'. induction Hfull'; constructor; auto. }
  { clear -Hfull. induction Hfull; constructor; auto. }
  { unfold samples_of in Hin, Hin'. congruence. }
  assert (Hlen : chunk_idx st' = chunk_idx st).
  { apply (f_equal length) in Hidx, Hidx', Hws.
    rewrite !length_map, ?length_seq in *. lia. }
  assert (Hem : emitted st' = emitted st).
  { apply numbered_unique; [|exact Hws]. by rewrite Hidx, Hidx', Hlen. }
  destruct st, st'. simpl in *. subst. reflexivity.
Qed.

Lemma framing_does_not_matter_witness :
  exists st,
    main 3 CaptureExamples.env_fail1 true 8 CaptureExamples.frames = Waiting st /\
    main 3 CaptureExamples.env_fail1 true 8 CaptureExamples.frames_again = Waiting st.
Proof.
  apply (framing_does_not_matter 3 CaptureExamples.env_fail1 8
           CaptureExamples.frames CaptureExamples.frames_again).
  - lia.
  - reflexivity.
  - simpl. lia.
  - reflexivity.
Defined.

(** X6. A save that fails ends the run at that window: when window [i] is
    the first that cannot be saved and the frames hold more than [i]
    windows' worth of samples, [main] returns through its outer handler
    with [chunk_idx = i], whatever the endpoint does. *)
Theorem failed_save_is_fatal {A} (chunk_samples : nat) (env : Env A) (fuel : nat)
    (frames : list (list A)) (i : nat) :
  0 < chunk_samples ->
  save_ok env i = false ->
  (forall j, j < i -> save_ok env j = true) ->
  (S i) * chunk_samples <= length (concat frames) ->
  length (concat frames) < fuel ->
  exists st,
    main chunk_samples env true fuel frames = Fatal st /\ chunk_idx st = i.
Proof.
  intros Hpos Hfail Hbefore Hlong Hfuel. unfold main.
  pose proof (feed_stops chunk_samples Hpos env fuel frames init [] Hfuel
                (CaptureFacts.assembled_init chunk_samples)) as Hstop.
  pose proof (feed_reported chunk_samples env fuel frames init) as Hrep.
  destruct (feed chunk_samples env fuel frames init) as [st|st|] eqn:Hrun; [| |done].
  - exfalso. destruct Hstop as [Hacc Hlt]. simpl in Hacc, Hlt.
    destruct (Hrep st (well_reported_init env) eq_refl) as [(_ & _ & Hsaved) _].
    assert (Hn : i < chunk_idx st).
    { pose proof (CaptureFacts.assembled_length chunk_samples Hpos _ _ Hacc) as Hlen.
      destruct Hacc as (_ & _ & Hidx). apply (f_equal length) in Hidx.
      rewrite length_map, length_seq in Hidx.
      specialize (Hlt ltac:(lia)). nia. }
    rewrite (Hsaved i Hn) in Hfail. discriminate.
  - exists st. split; [done|].
    destruct (Hrep st (well_reported_init env) eq_refl) as [(_ & _ & Hsaved) Hat].
    destruct (Hat eq_refl) as [Hsave _].
    destruct (lt_eq_lt_dec (chunk_idx st) i) as [[Hlt|Heq]|Hgt]; [|done|].
    + rewrite (Hbefore _ Hlt) in Hsave. discriminate.
    + rewrite (Hsaved _ Hgt) in Hfail. discriminate.
Qed.

Lemma failed_save_is_fatal_witness :
  exists st,
    main 3 CaptureExamples.env_disk_full true 8 CaptureExamples.frames = Fatal st /\
    chunk_idx st = 1.
Proof.
  apply (failed_save_is_fatal 3 CaptureExamples.env_disk_full 8 CaptureExamples.frames 1).
  - lia.
  - reflexivity.
  - intros j Hj. destruct j; [reflexivity|lia].
  - simpl. lia.
  - simpl. lia.
Defined.

End CaptureMore.

(* ================================================================== *)
(** * Further properties of enrollment and loading *)
(* ================================================================== *)

Module StringFacts.
Local Open Scope string_scope.

Lemma length_app (a b : string) :
  String.length (a +:+ b) = (String.length a + String.length b)%nat.
Proof. induction a as [|c a IH]; simpl; auto. Qed.

Lemma substring_all (b : string) : String.substring 0 (String.length b) b = b.
Proof. induction b as [|c b IH]; simpl; [done|by rewrite IH]. Qed.

Lemma substring_head (a b : string) :
  String.substring 0 (String.length a) (a +:+ b) = a.
Proof.
  induction a as [|c a IH]; simpl; [by destruct b|by rewrite IH].
Qed.

Lemma substring_tail (a b : string) (m : nat) :
  String.substring (String.length a) m (a +:+ b) = String.substring 0 m b.
Proof. induction a as [|c a IH]; simpl; auto. Qed.

Lemma substring_split (s : string) : forall m,
  (m <= String.length s)%nat ->
  s = String.substring 0 m s +:+ String.substring m (String.length s - m) s.
Proof.
  induction s as [|c s IH]; intros [|m] Hm; simpl in *; try lia; try done.
  - by rewrite substring_all.
  - change (String c s = String c (String.substring 0 m s
                                   +:+ String.substring m (String.length s - m) s)).
    f_equal. apply IH. lia.
Qed.

Lemma app_inv_tail (a b t : string) : a +:+ t = b +:+ t -> a = b.
Proof.
  revert b. induction a as [|c a IH]; intros [|d b] H; simpl in H; try done.
  - apply (f_equal String.length) in H. rewrite !length_app in H. simpl in H. lia.
  - apply (f_equal String.length) in H. rewrite !length_app in H. simpl in H. lia.
  - change (String c (a +:+ t) = String d (b +:+ t)) in H.
    injection H as -> H. f_equal. by apply IH.
Qed.

(** [s.endswith(suffix)] holds exactly of the strings [pre + suffix]. *)
Lemma endswith_spec (s suffix : string) :
  Py.endswith s suffix = true <-> exists pre, s = pre +:+ suffix.
Proof.
  unfold Py.endswith. rewrite andb_true_iff, Nat.leb_le, String.eqb_eq. split.
  - intros [Hle Hsub].
    exists (String.substring 0 (String.length s - String.length suffix) s).
    pose proof (substring_split s (String.length s - String.length suffix)) as Hs.
    replace (String.length s - (String.length s - String.length suffix))%nat
      with (String.length suffix) in Hs by lia.
    rewrite Hsub in Hs. apply Hs. lia.
  - intros [pre ->]. rewrite length_app. split; [lia|].
    replace (String.length pre + String.length suffix - String.length suffix)%nat
      with (String.length pre) by lia.
    by rewrite substring_tail, substring_all.
Qed.

(** [(pre + suffix)[:-len(suffix)]] is [pre]. *)
Lemma drop_last_app (pre suffix : string) :
  Py.drop_last (String.length suffix) (pre +:+ suffix) = pre.
Proof.
  unfold Py.drop_last. rewrite length_app.
  replace (String.length pre + String.length suffix - String.length suffix)%nat
    with (String.length pre) by lia.
  apply substring_head.
Qed.

End StringFacts.

Module RegistryMore.
Import Registry RegistryDict StringFacts.

(** ** Assignment to a dict *)

Lemma dict_set_elem {V} (k : string) (v : V) (d : list (string * V)) (n : string) (e : V) :
  NoDup (map fst d) ->
  (n, e) ∈ dict_set k v d <-> (n = k /\ e = v) \/ (n <> k /\ (n, e) ∈ d).
Proof.
  induction d as [|[k' v'] d IH]; simpl; intros Hnd.
  - rewrite list_elem_of_singleton. split.
    + intros [= -> ->]. by left.
    + intros [[-> ->]|[_ H]]; [done|by apply elem_of_nil in H].
  - apply NoDup_cons in Hnd as [Hk' Hnd].
    destruct (String.eqb_spec k' k) as [->|Hne].
    + rewrite !elem_of_cons. split.
      * intros [[= -> ->]|Hin]; [by left|]. right. split; [|by right].
        intros ->. apply Hk'. apply list_elem_of_In, in_map_iff.
        exists (k, e). split; [done|by apply list_elem_of_In].
      * intros [[-> ->]|[Hn [[= -> ->]|Hin]]]; [by left|done|by right].
    + rewrite !elem_of_cons, (IH Hnd). split.
      * intros [[= -> ->]|[[-> ->]|[Hn Hin]]]; [right|by left|right]; split; auto.
      * intros [[-> ->]|[Hn [[= -> ->]|Hin]]]; auto.
Qed.

Lemma dict_set_NoDup {V} (k : string) (v : V) (d : list (string * V)) :
  NoDup (map fst d) -> NoDup (map fst (dict_set k v d)).
Proof.
  induction d as [|[k' v'] d IH]; simpl; intros Hnd.
  - apply NoDup_singleton.
  - apply NoDup_cons in Hnd as [Hk' Hnd].
    destruct (String.eqb_spec k' k) as [->|Hne]; simpl.
    + by apply NoDup_cons.
    + apply NoDup_cons. split; [|by apply IH].
      intros Hin. apply list_elem_of_In, in_map_iff in Hin as ([n e] & Hn & Hin).
      simpl in Hn. subst n.
      apply list_elem_of_In, (dict_set_elem k v d k' e Hnd) in Hin as [[-> _]|[_ Hin]];
        [done|].
      apply Hk'. apply list_elem_of_In, in_map_iff. exists (k', e).
      split; [done|by apply list_elem_of_In].
Qed.

(** ** [load_enrolled_speakers] *)

Section Load.
Context {Emb : Type}.
Variable files : gmap string Emb.

Lemma npy_endswith (name : string) : Py.endswith (npy name) ".npy" = true.
Proof. apply endswith_spec. by exists name. Qed.

Lemma npy_inj (n m : string) : npy n = npy m -> n = m.
Proof. apply app_inv_tail. Qed.

Lemma endswith_npy (fname : string) :
  Py.endswith fname ".npy" = true -> fname = npy (Py.drop_last 4 fname).
Proof.
  intros [pre ->]%endswith_spec.
  change 4 with (String.length ".npy"). by rewrite drop_last_app.
Qed.

Lemma load_files_reflects (listing : list string) :
  forall (speakers : list (string * Emb)) (done : list string) reg,
    NoDup (map fst speakers) ->
    (forall n e, (n, e) ∈ speakers <-> npy n ∈ done /\ files !! npy n = Some e) ->
    load_files files listing speakers = Py.Ok reg ->
    NoDup (map fst reg) /\
    forall n e, (n, e) ∈ reg <-> npy n ∈ done ++ listing /\ files !! npy n = Some e.
Proof.
  induction listing as [|fname listing IH]; intros speakers done reg Hnd Hinv; simpl.
  - intros [= <-]. by rewrite app_nil_r.
  - replace (done ++ fname :: listing) with ((done ++ [fname]) ++ listing)
      by by rewrite <- app_assoc.
    destruct (Py.endswith fname ".npy") eqn:Hend.
    + destruct (files !! fname) as [embedding|] eqn:Hfile; [|discriminate].
      pose proof (endswith_npy fname Hend) as Hname.
      set (key := Py.drop_last 4 fname) in *.
      apply IH; [by apply dict_set_NoDup|].
      intros n e. rewrite (dict_set_elem key embedding speakers n e Hnd), Hinv.
      rewrite elem_of_app, list_elem_of_singleton. split.
      * intros [[-> ->]|[Hn [Hin Hf]]]; [|by auto].
        rewrite <- Hname. auto.
      * intros [[Hin|Heq] Hf].
        -- destruct (decide (n = key)) as [->|Hn]; [left|by auto].
           rewrite <- Hname in Hf. split; congruence.
        -- left. rewrite Hname in Heq. apply npy_inj in Heq as ->.
           rewrite <- Hname in Hf. split; congruence.
    + apply IH; [done|].
      intros n e. rewrite Hinv, elem_of_app, list_elem_of_singleton. split.
      * intros [Hin Hf]. auto.
      * intros [[Hin|Heq] Hf]; [done|].
        rewrite <- Heq, npy_endswith in Hend. discriminate.
Qed.

End Load.

(** X7. The registry loaded is the directory as listed: it holds a profile
    [name -> embedding] exactly when the listing names [name.npy] and that
    file holds the embedding, whatever else is listed; and no name occurs
    twice.  A directory that does not exist loads as the empty registry. *)
Theorem load_reflects_directory {Emb} (dir : enroll_dir (Emb:=Emb))
    (listing : list string) (reg : list (string * Emb)) :
  load_enrolled_speakers dir listing = Py.Ok reg ->
  NoDup (map fst reg) /\
  (forall name e,
     (name, e) ∈ reg <->
     npy name ∈ listing /\ exists files, dir = Some files /\ files !! npy name = Some e) /\
  (dir = None -> reg = []).
Proof.
  unfold load_enrolled_speakers. destruct dir as [files|].
  - intros Hload.
    destruct (load_files_reflects files listing [] [] reg) as [Hnd Hiff]; auto.
    { constructor. }
    { intros n e. split; [by intros H%elem_of_nil|by intros [H%elem_of_nil _]]. }
    split; [exact Hnd|]. split; [|discriminate].
    intros name e. rewrite Hiff. simpl. split.
    + intros [Hin Hf]. eauto.
    + intros [Hin (files' & [= <-] & Hf)]. auto.
  - intros [= <-]. split; [constructor|]. split; [|done].
    intros name e. split; [by intros H%elem_of_nil|].
    intros [_ (files & Hdir & _)]. discriminate.
Qed.

Lemma load_reflects_directory_witness :
  NoDup (map fst RegistryExamples.twins_registry) /\
  (forall name e,
     (name, e) ∈ RegistryExamples.twins_registry <->
     npy name ∈ RegistryExamples.twins_listing /\
     exists files, Some RegistryExamples.twins_files = Some files /\
                   files !! npy name = Some e) /\
  (Some RegistryExamples.twins_files = None -> RegistryExamples.twins_registry = []).
Proof.
  apply (load_reflects_directory (Some RegistryExamples.twins_files)
           RegistryExamples.twins_listing RegistryExamples.twins_registry).
  vm_compute. reflexivity.
Defined.

(** ** The order of the registry *)

Lemma dict_set_fresh {V} (k : string) (v : V) (d : list (string * V)) :
  k ∉ map fst d -> dict_set k v d = d ++ [(k, v)].
Proof.
  induction d as [|[k' v'] d IH]; simpl; [done|]. intros Hk.
  apply not_elem_of_cons in Hk as [Hne Hk].
  destruct (String.eqb_spec k' k) as [->|_]; [done|]. by rewrite IH.
Qed.

Lemma load_files_in_order {Emb} (files : gmap string Emb) (listing : list string) :
  forall speakers reg,
    NoDup listing ->
    (forall f, f ∈ listing -> Py.endswith f ".npy" = true ->
               Py.drop_last 4 f ∉ map fst speakers) ->
    load_files files listing speakers = Py.Ok reg ->
    reg = speakers ++ omap (profile_of files) listing.
Proof.
  induction listing as [|fname listing IH]; intros speakers reg Hnd Hfresh; simpl.
  - intros [= <-]. by rewrite app_nil_r.
  - apply NoDup_cons in Hnd as [Hnew Hnd]. unfold profile_of at 1.
    destruct (Py.endswith fname ".npy") eqn:Hend.
    + destruct (files !! fname) as [embedding|] eqn:Hfile; [|discriminate]. simpl.
      rewrite dict_set_fresh by (apply Hfresh; [by left|done]).
      intros Hload.
      assert (Hrest : forall f, f ∈ listing -> Py.endswith f ".npy" = true ->
                Py.drop_last 4 f ∉ map fst (speakers ++ [(Py.drop_last 4 fname, embedding)])).
      { intros f Hf Hfend. rewrite map_app. simpl.
        rewrite elem_of_app, list_elem_of_singleton. intros [Hin|Heq].
        - by apply (Hfresh f); [right| |].
        - apply Hnew. apply endswith_npy in Hfend, Hend.
          rewrite Hend, <- Heq, <- Hfend. exact Hf. }
      rewrite (IH _ reg Hnd Hrest Hload). by rewrite <- app_assoc.
    + apply IH; [done|]. intros f Hf. apply Hfresh. by right.
Qed.

(** X20. The registry keeps the order of the listing: for a listing without
    repeats, the profiles loaded are those of the listed [.npy] files that
    are there, one per file and in the order [os.listdir] gave them.  This
    is the order the tie rule of identification follows. *)
Theorem load_keeps_listing_order {Emb} (files : gmap string Emb)
    (listing : list string) (reg : list (string * Emb)) :
  NoDup listing ->
  load_enrolled_speakers (Some files) listing = Py.Ok reg ->
  reg = omap (profile_of files) listing.
Proof.
  intros Hnd Hload.
  apply (load_files_in_order files listing [] reg Hnd); [|exact Hload].
  intros f _ _ Hin. by apply elem_of_nil in Hin.
Qed.

Lemma load_keeps_listing_order_witness :
  RegistryExamples.twins_registry
  = omap (profile_of RegistryExamples.twins_files) RegistryExamples.twins_listing.
Proof.
  apply (load_keeps_listing_order RegistryExamples.twins_files
           RegistryExamples.twins_listing RegistryExamples.twins_registry).
  - apply NoDup_cons. split; [|apply NoDup_singleton].
    intros Hin. apply list_elem_of_singleton in Hin. discriminate.
  - vm_compute. reflexivity.
Defined.

(** X9. Enrollment is read back: after [enroll_speaker name embedding], any
    load whose listing names [name.npy] holds the profile [name -> embedding]
    and no other profile under that name, also when the speaker had been
    enrolled before (the file is overwritten) or the directory did not
    exist; the profiles of the other speakers are those of the directory as
    it was. *)
Theorem enroll_then_load {Emb} (name : string) (embedding : Emb)
    (dir : enroll_dir (Emb:=Emb)) (listing : list string) (reg : list (string * Emb)) :
  load_enrolled_speakers (enroll_speaker name embedding dir) listing = Py.Ok reg ->
  npy name ∈ listing ->
  (name, embedding) ∈ reg /\
  (forall e, (name, e) ∈ reg -> e = embedding) /\
  (forall other e, other <> name ->
     ((other, e) ∈ reg <->
      npy other ∈ listing /\ default ∅ dir !! npy other = Some e)).
Proof.
  intros Hload Hlisted.
  destruct (load_reflects_directory _ listing reg Hload) as (_ & Hiff & _).
  unfold enroll_speaker in Hiff.
  split; [|split].
  - apply Hiff. split; [done|]. eexists. split; [done|]. apply lookup_insert_eq.
  - intros e (_ & files & [= <-] & Hf)%Hiff.
    rewrite lookup_insert_eq in Hf. congruence.
  - intros other e Hother. rewrite Hiff. split.
    + intros (Hin & files & [= <-] & Hf). split; [done|].
      rewrite lookup_insert_ne in Hf; [done|]. intros Heq. by apply npy_inj in Heq.
    + intros [Hin Hf]. split; [done|]. eexists. split; [done|].
      rewrite lookup_insert_ne; [done|]. intros Heq. by apply npy_inj in Heq.
Qed.

Lemma enroll_then_load_witness :
  ("Alice"%string, RegistryExamples.north) ∈
    [("Alice"%string, RegistryExamples.north); ("Bob"%string, RegistryExamples.east)] /\
  (forall e, ("Alice"%string, e) ∈
       [("Alice"%string, RegistryExamples.north); ("Bob"%string, RegistryExamples.east)] ->
     e = RegistryExamples.north) /\
  (forall other e, other <> "Alice"%string ->
     ((other, e) ∈
        [("Alice"%string, RegistryExamples.north); ("Bob"%string, RegistryExamples.east)] <->
      npy other ∈ RegistryExamples.twins_listing /\
      default ∅ (Some RegistryExamples.twins_files) !! npy other = Some e)).
Proof.
  apply (enroll_then_load "Alice" RegistryExamples.north
           (Some RegistryExamples.twins_files) RegistryExamples.twins_listing).
  - vm_compute. reflexivity.
  - vm_compute. left.
Defined.

End RegistryMore.

(* ================================================================== *)
(** * Further properties of identification *)
(* ================================================================== *)

Module IdentifyMore.
Import Registry FloatFacts RegistryFacts.
Local Open Scope float_scope.

(** Below or equal, then strictly below: strictly below. *)
Lemma SFcompare_le_lt (x y z : spec_float) :
  SFcompare x y = Some Lt \/ SFcompare x y = Some Eq ->
  SFcompare y z = Some Lt ->
  SFcompare x z = Some Lt.
Proof.
  destruct x as [sx|sx| |sx mx ex], y as [sy|sy| |sy my ey], z as [sz|sz| |sz mz ez];
    try destruct sx; try destruct sy; try destruct sz; simpl;
    intros [H1|H1] H2; try discriminate; try reflexivity;
    lex_cases ex mx ey my ez mz.
Qed.

Lemma leb_ltb_trans (x y z : float) :
  (x <=? y) = true -> (y <? z) = true -> (x <? z) = true.
Proof.
  rewrite !FloatAxioms.ltb_spec, FloatAxioms.leb_spec. unfold SFltb, SFleb.
  intros H1 H2.
  rewrite (SFcompare_le_lt (Prim2SF x) (Prim2SF y) (Prim2SF z)); auto.
  - destruct (SFcompare (Prim2SF x) (Prim2SF y)) as [[]|]; auto; discriminate.
  - destruct (SFcompare (Prim2SF y) (Prim2SF z)) as [[]|]; congruence.
Qed.

Lemma leb_nan_r (x m : float) : is_nan m = true -> (x <=? m) = false.
Proof.
  intros H%is_nan_spec. rewrite FloatAxioms.leb_spec. unfold SFleb.
  replace (SFcompare (Prim2SF x) (Prim2SF m)) with (@None comparison); [reflexivity|].
  symmetry. apply SFcompare_nan. auto.
Qed.

Lemma ltb_nan_l (m x : float) : is_nan m = true -> (m <? x) = false.
Proof.
  intros H%is_nan_spec. rewrite FloatAxioms.ltb_spec. unfold SFltb.
  replace (SFcompare (Prim2SF m) (Prim2SF x)) with (@None comparison); [reflexivity|].
  symmetry. apply SFcompare_nan. auto.
Qed.

(** ** A NaN in the row *)

Lemma argmin_from_nan (ip : list float) : forall pre mp min_ind,
  Exists (fun x => is_nan x = true) ip ->
  exists m, (pre ++ ip) !! argmin_from mp min_ind (length pre) ip = Some m /\
            is_nan m = true.
Proof.
  induction ip as [|x ip IH]; intros pre mp min_ind Hex; [by apply Exists_nil in Hex|].
  simpl. destruct (is_nan x) eqn:Hnan.
  - rewrite (leb_nan_r mp x Hnan). simpl. exists x. split; [|done].
    rewrite lookup_app_r by lia. by rewrite Nat.sub_diag.
  - apply Exists_cons in Hex as [Hx|Hex]; [congruence|].
    replace (pre ++ x :: ip) with ((pre ++ [x]) ++ ip) by by rewrite <- app_assoc.
    replace (S (length pre)) with (length (pre ++ [x]))
      by (rewrite length_app; simpl; lia).
    destruct (mp <=? x); simpl; by apply IH.
Qed.

Lemma argmin_nan (a : list float) :
  Exists (fun x => is_nan x = true) a ->
  exists m, a !! argmin a = Some m /\ is_nan m = true.
Proof.
  destruct a as [|x a]; [by intros H%Exists_nil|]. simpl.
  destruct (is_nan x) eqn:Hnan; [by exists x|].
  intros [Hx|Hex]%Exists_cons; [congruence|].
  by apply (argmin_from_nan a [x] x 0).
Qed.

Section Identify.
Context {Emb : Type}.
Variable cdist_cosine : Emb -> Emb -> float.

(** A profile strictly closer than every other is the one selected,
    wherever it stands. *)
Lemma selected_unique_minimum (e : Emb) (reg : list (string * Emb)) name emb :
  (name, emb) ∈ reg ->
  (forall p, p ∈ reg ->
     p = (name, emb) \/ (cdist_cosine e emb <? cdist_cosine e p.2) = true) ->
  selected cdist_cosine e reg = Some (name, emb).
Proof.
  intros Hin Huniq.
  destruct (selected_is_Some cdist_cosine e reg) as (n' & e' & Hsel & Hd).
  { intros ->. by apply elem_of_nil in Hin. }
  rewrite Hsel. f_equal.
  assert (Hin' : (n', e') ∈ reg) by (unfold selected in Hsel; by eapply list_elem_of_lookup_2).
  destruct (Huniq _ Hin') as [Heq|Hlt]; [done|]. exfalso. simpl in Hlt.
  apply list_elem_of_lookup_1 in Hin as [j Hj].
  assert (Hsp : selects (distances cdist_cosine e reg)
                        (argmin (distances cdist_cosine e reg))).
  { apply argmin_selects. destruct reg; [by rewrite lookup_nil in Hj|discriminate]. }
  rewrite (selects_least _ _ _ j (cdist_cosine e emb) Hsp Hd) in Hlt; [discriminate|].
  by rewrite distances_lookup, Hj.
Qed.

End Identify.

(** X10. When one profile is strictly closer to the turn than every other,
    the order of the registry, hence the order in which the directory was
    listed, does not matter: every reordering gives the same answer, that
    profile's name if its distance is below the threshold and "Unknown"
    otherwise. *)
Theorem unique_minimum_ignores_order {Emb} (cdist_cosine : Emb -> Emb -> float)
    (e : Emb) (reg reg' : list (string * Emb)) (thr : float) (name : string) (emb : Emb) :
  reg' ≡ₚ reg ->
  (name, emb) ∈ reg ->
  (forall p, p ∈ reg ->
     p = (name, emb) \/ (cdist_cosine e emb <? cdist_cosine e p.2) = true) ->
  identify_speaker cdist_cosine e reg' thr = identify_speaker cdist_cosine e reg thr /\
  identify_speaker cdist_cosine e reg thr
  = if cdist_cosine e emb <? thr then name else "Unknown"%string.
Proof.
  intros Hperm Hin Huniq.
  rewrite (identify_speaker_selected cdist_cosine e reg thr name emb)
    by by apply selected_unique_minimum.
  rewrite (identify_speaker_selected cdist_cosine e reg' thr name emb); [done|].
  apply selected_unique_minimum.
  - by rewrite Hperm.
  - intros p Hp. apply Huniq. by rewrite <- Hperm.
Qed.

Lemma unique_minimum_ignores_order_witness :
  identify_speaker RegistryExamples.cosine RegistryExamples.east
    RegistryExamples.registry_reversed DEFAULT_THRESHOLD
  = identify_speaker RegistryExamples.cosine RegistryExamples.east
      RegistryExamples.registry DEFAULT_THRESHOLD /\
  identify_speaker RegistryExamples.cosine RegistryExamples.east
    RegistryExamples.registry DEFAULT_THRESHOLD
  = if RegistryExamples.cosine RegistryExamples.east RegistryExamples.east
       <? DEFAULT_THRESHOLD
    then "Alice"%string else "Unknown"%string.
Proof.
  apply (unique_minimum_ignores_order RegistryExamples.cosine RegistryExamples.east
           RegistryExamples.registry RegistryExamples.registry_reversed
           DEFAULT_THRESHOLD "Alice" RegistryExamples.east).
  - apply perm_swap.
  - left.
  - intros p Hp. apply list_elem_of_In in Hp.
    destruct Hp as [<-|[<-|[]]]; [by left|right; vm_compute; reflexivity].
Defined.

(** X11. The threshold is monotone: a speaker accepted under a threshold is
    accepted, under the same name, under every larger threshold; and a turn
    that is "Unknown" under a threshold is "Unknown" under every smaller
    one. *)
Theorem threshold_is_monotone {Emb} (cdist_cosine : Emb -> Emb -> float)
    (e : Emb) (reg : list (string * Emb)) (thr thr' : float) :
  (thr <=? thr') = true ->
  (identify_speaker cdist_cosine e reg thr <> "Unknown"%string ->
   identify_speaker cdist_cosine e reg thr'
   = identify_speaker cdist_cosine e reg thr) /\
  (identify_speaker cdist_cosine e reg thr' = "Unknown"%string ->
   identify_speaker cdist_cosine e reg thr = "Unknown"%string).
Proof.
  intros Hle. destruct reg as [|p reg]; [done|].
  destruct (selected_is_Some cdist_cosine e (p :: reg)) as (name & emb & Hsel & _);
    [done|].
  rewrite !(identify_speaker_selected cdist_cosine e _ _ name emb Hsel).
  destruct (cdist_cosine e emb <? thr) eqn:Hlt.
  - rewrite (ltb_leb_trans _ _ _ Hlt Hle). done.
  - split; [done|]. by destruct (cdist_cosine e emb <? thr').
Qed.

Lemma threshold_is_monotone_witness :
  (identify_speaker RegistryExamples.cosine RegistryExamples.east
     RegistryExamples.registry DEFAULT_THRESHOLD <> "Unknown"%string ->
   identify_speaker RegistryExamples.cosine RegistryExamples.east
     RegistryExamples.registry 1
   = identify_speaker RegistryExamples.cosine RegistryExamples.east
       RegistryExamples.registry DEFAULT_THRESHOLD) /\
  (identify_speaker RegistryExamples.cosine RegistryExamples.east
     RegistryExamples.registry 1 = "Unknown"%string ->
   identify_speaker RegistryExamples.cosine RegistryExamples.east
     RegistryExamples.registry DEFAULT_THRESHOLD = "Unknown"%string).
Proof.
  apply (threshold_is_monotone RegistryExamples.cosine RegistryExamples.east
           RegistryExamples.registry DEFAULT_THRESHOLD 1).
  vm_compute. reflexivity.
Defined.

(** X12. When every distance is a number, one enrolled profile strictly
    below the threshold is enough for acceptance: the answer is the name of
    the selected profile, whose distance is below the threshold and no
    larger than that of the profile given. *)
Theorem within_threshold_is_accepted {Emb} (cdist_cosine : Emb -> Emb -> float)
    (e : Emb) (reg : list (string * Emb)) (thr : float) (p : string * Emb) :
  (forall q, q ∈ reg -> is_nan (cdist_cosine e q.2) = false) ->
  p ∈ reg ->
  (cdist_cosine e p.2 <? thr) = true ->
  exists name emb,
    selected cdist_cosine e reg = Some (name, emb) /\
    identify_speaker cdist_cosine e reg thr = name /\
    (cdist_cosine e emb <? thr) = true /\
    (cdist_cosine e emb <=? cdist_cosine e p.2) = true.
Proof.
  intros Hnum Hin Hlt.
  destruct (selected_is_Some cdist_cosine e reg) as (name & emb & Hsel & Hd).
  { intros ->. by apply elem_of_nil in Hin. }
  assert (Hsp : selects (distances cdist_cosine e reg)
                        (argmin (distances cdist_cosine e reg))).
  { apply argmin_selects. destruct reg; [by apply elem_of_nil in Hin|discriminate]. }
  assert (Hle : (cdist_cosine e emb <=? cdist_cosine e p.2) = true).
  { apply list_elem_of_lookup_1 in Hin as [j Hj].
    apply (selects_minimum _ _ _ j _ Hsp Hd).
    - apply (Hnum (name, emb)). unfold selected in Hsel. by eapply list_elem_of_lookup_2.
    - by rewrite distances_lookup, Hj. }
  pose proof (leb_ltb_trans _ _ _ Hle Hlt) as Hacc.
  exists name, emb. repeat split; auto.
  by rewrite (identify_speaker_selected cdist_cosine e reg thr name emb Hsel), Hacc.
Qed.

Lemma within_threshold_is_accepted_witness :
  exists name emb,
    selected RegistryExamples.cosine RegistryExamples.east RegistryExamples.registry_reversed
    = Some (name, emb) /\
    identify_speaker RegistryExamples.cosine RegistryExamples.east
      RegistryExamples.registry_reversed DEFAULT_THRESHOLD = name /\
    (RegistryExamples.cosine RegistryExamples.east emb <? DEFAULT_THRESHOLD) = true /\
    (RegistryExamples.cosine RegistryExamples.east emb
     <=? RegistryExamples.cosine RegistryExamples.east
           ("Alice"%string, RegistryExamples.east).2) = true.
Proof.
  apply (within_threshold_is_accepted RegistryExamples.cosine RegistryExamples.east
           RegistryExamples.registry_reversed DEFAULT_THRESHOLD
           ("Alice"%string, RegistryExamples.east)).
  - intros q Hq. apply list_elem_of_In in Hq.
    destruct Hq as [<-|[<-|[]]]; vm_compute; reflexivity.
  - right. left.
  - vm_compute. reflexivity.
Defined.

(** X13. A single distance that is not a number silences identification:
    if the distance to any enrolled profile is NaN (for the cosine distance,
    an all-zero embedding), [np.argmin] points at a NaN and the answer is
    "Unknown" under every threshold, however close the other profiles
    are. *)
Theorem nan_distance_gives_unknown {Emb} (cdist_cosine : Emb -> Emb -> float)
    (e : Emb) (reg : list (string * Emb)) (thr : float) (p : string * Emb) :
  p ∈ reg ->
  is_nan (cdist_cosine e p.2) = true ->
  identify_speaker cdist_cosine e reg thr = "Unknown"%string.
Proof.
  intros Hin Hnan.
  destruct (argmin_nan (distances cdist_cosine e reg)) as (m & Hm & Hmnan).
  { apply Exists_exists. exists (cdist_cosine e p.2). split; [|done].
    apply list_elem_of_lookup_1 in Hin as [j Hj].
    apply (list_elem_of_lookup_2 _ j). by rewrite distances_lookup, Hj. }
  destruct (selected_is_Some cdist_cosine e reg) as (name & emb & Hsel & Hd).
  { intros ->. by apply elem_of_nil in Hin. }
  rewrite (identify_speaker_selected cdist_cosine e reg thr name emb Hsel).
  assert (m = cdist_cosine e emb) as <- by congruence.
  by rewrite (ltb_nan_l m thr Hmnan).
Qed.

Lemma nan_distance_gives_unknown_witness :
  identify_speaker RegistryExamples.cosine RegistryExamples.east
    RegistryExamples.registry_with_zero DEFAULT_THRESHOLD = "Unknown"%string.
Proof.
  apply (nan_distance_gives_unknown RegistryExamples.cosine RegistryExamples.east
           RegistryExamples.registry_with_zero DEFAULT_THRESHOLD
           ("Mute"%string, [0; 0]%float)).
  - right. left.
  - vm_compute. reflexivity.
Defined.

End IdentifyMore.

(* ================================================================== *)
(** * Further properties of the file pipeline *)
(* ================================================================== *)

Module FilePipelineMore.
Import Diarization FilePipeline FilePipelineFacts FullScale.

(** ** Normalisation *)

Lemma np_max_attained (xs : list Z) : forall a, np_max a xs ∈ a :: xs.
Proof.
  unfold np_max. induction xs as [|x xs IH]; intros a; simpl; [by left|].
  specialize (IH (Z.max a x)). apply elem_of_cons in IH as [->|IH].
  - destruct (Z.max_spec a x) as [[_ ->]|[_ ->]]; [right; left|left].
  - right. by right.
Qed.

Lemma all_in_range_spec (f : Z -> bool) (bits : nat) : forall base x,
  all_in_range bits base f = true ->
  (base <= x < base + 2 ^ Z.of_nat bits)%Z -> f x = true.
Proof.
  induction bits as [|b IH]; intros base x; simpl all_in_range.
  - intros Hf Hx. change (2 ^ Z.of_nat 0)%Z with 1%Z in Hx.
    by replace x with base by lia.
  - intros [H1 H2]%andb_true_iff Hx.
    rewrite Nat2Z.inj_succ, Z.pow_succ_r in Hx by lia.
    destruct (Z.lt_ge_cases x (base + 2 ^ Z.of_nat b)) as [Hlt|Hge].
    + apply (IH base); [done|lia].
    + apply (IH (base + 2 ^ Z.of_nat b)%Z); [done|lia].
Qed.

Lemma full_scale_checked : all_in_range 15 0 full_scale_check = true.
Proof. vm_compute. reflexivity. Qed.

Lemma full_scale (x : Z) :
  (1 <= x <= 32767)%Z ->
  f32_div (f32_of_int x) (f32_of_int x) = f32_of_int 1 /\
  f32_div (f32_of_int (- x)) (f32_of_int x) = f32_of_int (-1).
Proof.
  intros Hx.
  pose proof (all_in_range_spec full_scale_check 15 0 x full_scale_checked) as Hall.
  specialize (Hall ltac:(simpl; lia)).
  unfold full_scale_check in Hall.
  destruct (Z.eqb_spec x 0) as [|_]; [lia|]. simpl in Hall.
  destruct (f32_div (f32_of_int x) (f32_of_int x)) as [| | |[] m e];
    try discriminate.
  destruct (f32_div (f32_of_int (- x)) (f32_of_int x)) as [| | |[] m' e'];
    repeat match type of Hall with
           | match ?p with _ => _ end = true => destruct p; try discriminate
           end.
  split; reflexivity.
Qed.

Lemma normalize_length (audio : list Z) (out : list spec_float) :
  normalize audio = Py.Ok out -> length out = length audio.
Proof.
  unfold normalize, peak. destruct (map np_abs audio); [discriminate|].
  simpl. intros [= <-]. apply length_map.
Qed.

(** X14. Normalisation of a file away from the most negative 16-bit value
    and not all zero: the divisor is positive and at least the magnitude of
    every sample, the output has one value per sample, and full scale is
    reached, some normalised sample being exactly 1 or -1. *)
Theorem normalize_reaches_full_scale (audio : list Z) :
  Forall (fun x => (-32767 <= x <= 32767)%Z) audio ->
  Exists (fun x => x <> 0%Z) audio ->
  exists m out,
    peak audio = Py.Ok m /\ (0 < m)%Z /\
    Forall (fun x => (Z.abs x <= m)%Z) audio /\
    normalize audio = Py.Ok out /\ length out = length audio /\
    Exists (fun y => y = f32_of_int 1 \/ y = f32_of_int (-1)) out.
Proof.
  intros Hrange Hnz.
  destruct (peak_bounds audio Hrange Hnz) as (m & Hpeak & Hpos & Hall).
  exists m, (map (fun x => f32_div (f32_of_int x) (f32_of_int m)) audio).
  assert (Hnorm : normalize audio
                  = Py.Ok (map (fun x => f32_div (f32_of_int x) (f32_of_int m)) audio)).
  { unfold normalize. by rewrite Hpeak. }
  repeat split; auto; [apply length_map|].
  assert (Hatt : exists x, x ∈ audio /\ Z.abs x = m).
  { unfold peak in Hpeak. destruct audio as [|a rest]; [discriminate|].
    simpl in Hpeak. injection Hpeak as Hm.
    pose proof (np_max_attained (map np_abs rest) (np_abs a)) as Hin.
    rewrite Hm in Hin. change (np_abs a :: map np_abs rest) with (map np_abs (a :: rest)) in Hin.
    apply list_elem_of_In, in_map_iff in Hin as (x & Hx & Hin).
    exists x. split; [by apply list_elem_of_In|].
    rewrite <- np_abs_magnitude; [done|].
    rewrite Forall_forall in Hrange. apply Hrange. by apply list_elem_of_In. }
  destruct Hatt as (x & Hx & Habs).
  assert (Hm : (1 <= m <= 32767)%Z).
  { rewrite Forall_forall in Hrange. specialize (Hrange x Hx). lia. }
  apply Exists_exists. exists (f32_div (f32_of_int x) (f32_of_int m)). split.
  - apply list_elem_of_In, in_map_iff. exists x. split; [done|by apply list_elem_of_In].
  - destruct (full_scale m Hm) as [Hone Hminus].
    destruct (Z.abs_spec x) as [[_ Hxx]|[_ Hxx]].
    + left. replace x with m by lia. exact Hone.
    + right. replace x with (- m)%Z by lia. exact Hminus.
Qed.

Lemma normalize_reaches_full_scale_witness :
  exists m out,
    peak RealtimeExamples.recording = Py.Ok m /\ (0 < m)%Z /\
    Forall (fun x => (Z.abs x <= m)%Z) RealtimeExamples.recording /\
    normalize RealtimeExamples.recording = Py.Ok out /\
    length out = length RealtimeExamples.recording /\
    Exists (fun y => y = f32_of_int 1 \/ y = f32_of_int (-1)) out.
Proof.
  apply (normalize_reaches_full_scale RealtimeExamples.recording).
  - repeat constructor; lia.
  - left. discriminate.
Defined.

(** X15. Digital silence is not rejected and not guarded: for a non-empty
    file whose samples are all zero the divisor is zero, nothing is raised,
    and every normalised sample is NaN; an empty file makes [np.max]
    raise. *)
Theorem normalize_silence (audio : list Z) :
  Forall (fun x => x = 0%Z) audio ->
  (audio <> [] ->
   peak audio = Py.Ok 0%Z /\
   normalize audio = Py.Ok (replicate (length audio) S754_nan)) /\
  (audio = [] -> normalize audio = Py.Raise "ValueError"%string).
Proof.
  intros Hzero. split; [|by intros ->].
  intros Hne. destruct audio as [|a rest]; [done|].
  apply Forall_cons in Hzero as [-> Hrest].
  assert (Hpeak : peak (0%Z :: rest) = Py.Ok 0%Z).
  { unfold peak. simpl. f_equal. change (np_abs 0) with 0%Z.
    clear Hne. induction Hrest as [|x xs -> _ IH]; [done|]. exact IH. }
  split; [exact Hpeak|]. unfold normalize. rewrite Hpeak. simpl. do 2 f_equal.
  clear Hne Hpeak. induction Hrest as [|x xs -> _ IH]; [done|].
  simpl. by f_equal.
Qed.

Lemma normalize_silence_witness :
  ([0; 0; 0]%Z <> [] ->
   peak [0; 0; 0]%Z = Py.Ok 0%Z /\
   normalize [0; 0; 0]%Z = Py.Ok (replicate (length [0; 0; 0]%Z) S754_nan)) /\
  ([0; 0; 0]%Z = [] -> normalize [0; 0; 0]%Z = Py.Raise "ValueError"%string).
Proof.
  apply (normalize_silence [0; 0; 0]%Z).
  repeat constructor.
Defined.

(** ** The labels printed *)

Section Labels.
Context {Emb : Type}.
Variable cdist_cosine : Emb -> Emb -> float.
Variable embed_utterance : list spec_float -> Py.result Emb.
Variable transcribe : list spec_float -> Py.result Transcription.
Variable strip : string -> string.

Lemma process_turns_labels (audio : list spec_float) (sr : Z)
    (enrolled : list (string * Emb)) (turns : list Turn) : forall out n,
  Forall (fun l => line_speaker l = "Unknown"%string \/
                   line_speaker l ∈ map fst enrolled) out ->
  length out <= n ->
  let run := process_turns cdist_cosine embed_utterance transcribe strip
               audio sr enrolled turns out in
  Forall (fun l => line_speaker l = "Unknown"%string \/
                   line_speaker l ∈ map fst enrolled) run.1 /\
  length run.1 <= n + length turns.
Proof.
  induction turns as [|turn turns IH]; intros out n Hout Hn; simpl.
  - split; [done|lia].
  - destruct (turn_segment audio sr turn) as [segment|msg]; simpl; [|split; [done|lia]].
    destruct (Z.of_nat (length segment) <? sr)%Z.
    + destruct (IH out n Hout Hn) as [H1 H2]. split; [done|lia].
    + destruct (embed_utterance segment) as [embedding|msg]; simpl; [|split; [done|lia]].
      destruct (transcribe segment) as [result|msg]; simpl; [|split; [done|lia]].
      destruct (IH (out ++ [{| line_speaker :=
                                  Registry.identify_speaker cdist_cosine embedding enrolled
                                    Registry.DEFAULT_THRESHOLD;
                                line_language := whisper_language result;
                                line_text := strip (whisper_text result) |}]) (S n))
        as [H1 H2].
      * apply Forall_app. split; [done|]. apply Forall_singleton. simpl.
        apply RegistryFacts.identify_speaker_range.
      * rewrite length_app. simpl. lia.
      * split; [done|lia].
Qed.

End Labels.

(** X16. The file pipeline prints at most one line per diarized turn, and
    every speaker label it prints is "Unknown" or the name of an enrolled
    speaker whose [.npy] file is listed and present in the enrollment
    directory; this holds of the lines printed before an exception as
    well.  When loading the registry, the diarizer or the normalisation
    raises, nothing is printed. *)
Theorem file_pipeline_labels {Emb} (cdist_cosine : Emb -> Emb -> float)
    (embed_utterance : list spec_float -> Py.result Emb)
    (transcribe : list spec_float -> Py.result Transcription)
    (strip : string -> string)
    (dir : Registry.enroll_dir (Emb:=Emb)) (listing : list string)
    (diarization : Py.result (list Turn)) (sr : Z) (audio : wav_data)
    (lines : list Line) (status : option string) :
  process_audio_file cdist_cosine embed_utterance transcribe strip
    dir listing diarization sr audio = (lines, status) ->
  Forall (fun l => RegistryDict.label_from_directory dir listing (line_speaker l)) lines /\
  (forall turns, diarization = Py.Ok turns -> length lines <= length turns) /\
  ((forall reg, Registry.load_enrolled_speakers dir listing <> Py.Ok reg) \/
   (forall turns, diarization <> Py.Ok turns) \/
   first_channel audio = [] -> lines = []).
Proof.
  unfold process_audio_file. intros Hrun.
  destruct (Registry.load_enrolled_speakers dir listing) as [enrolled|msg] eqn:Hload.
  2:{ injection Hrun as <- _. repeat split; try constructor; auto. intros; simpl; lia. }
  destruct diarization as [turns|msg].
  2:{ injection Hrun as <- _. repeat split; try constructor; auto. discriminate. }
  destruct (normalize (first_channel audio)) as [samples|msg] eqn:Hnorm.
  2:{ injection Hrun as <- _. repeat split; try constructor; auto. intros; simpl; lia. }
  pose proof (process_turns_labels cdist_cosine embed_utterance transcribe strip
                samples sr enrolled turns [] 0 (List.Forall_nil _) (Nat.le_refl _)) as Hlab.
  rewrite Hrun in Hlab. simpl in Hlab. destruct Hlab as [Hlab Hlen].
  destruct (RegistryMore.load_reflects_directory dir listing enrolled Hload)
    as (_ & Hiff & _).
  split; [|split].
  - eapply Forall_impl; [exact Hlab|]. intros l [HU|Hin]; [by left|]. right.
    apply list_elem_of_In, in_map_iff in Hin as ([name e] & Hname & Hin).
    simpl in Hname. subst name.
    apply list_elem_of_In, Hiff in Hin as [Hlisted (files & Hdir & Hf)]. eauto.
  - by intros ? [= <-].
  - intros [Hno|[Hno|Hempty]].
    + by destruct (Hno enrolled).
    + by destruct (Hno turns).
    + rewrite Hempty in Hnorm. discriminate.
Qed.

Lemma file_pipeline_labels_witness :
  Forall (fun l => RegistryDict.label_from_directory
                     (Some RegistryExamples.twins_files) RegistryExamples.twins_listing
                     (line_speaker l))
    [{| line_speaker := "Alice"; line_language := "en"; line_text := "hi" |}] /\
  (forall turns,
     Py.Ok [RealtimeExamples.one_turn; RealtimeExamples.brief] = Py.Ok turns ->
     length [{| line_speaker := "Alice"; line_language := "en"; line_text := "hi" |}]
     <= length turns) /\
  ((forall reg, Registry.load_enrolled_speakers (Some RegistryExamples.twins_files)
                  RegistryExamples.twins_listing <> Py.Ok reg) \/
   (forall turns, Py.Ok [RealtimeExamples.one_turn; RealtimeExamples.brief]
                  <> Py.Ok turns) \/
   first_channel (Mono (replicate 40 1%Z)) = [] ->
   [{| line_speaker := "Alice"; line_language := "en"; line_text := "hi" |}] = []).
Proof.
  apply (file_pipeline_labels RegistryExamples.cosine RealtimeExamples.encoder
           RealtimeExamples.whisper32 RealtimeExamples.no_strip
           (Some RegistryExamples.twins_files) RegistryExamples.twins_listing
           (Py.Ok [RealtimeExamples.one_turn; RealtimeExamples.brief]) 8
           (Mono (replicate 40 1%Z))
           [{| line_speaker := "Alice"; line_language := "en"; line_text := "hi" |}]
           None).
  vm_compute. reflexivity.
Defined.

End FilePipelineMore.

(* ================================================================== *)
(** * Further properties of local_realtime_transcribe.py *)
(* ================================================================== *)

Module RealtimeMore.
Import Diarization Realtime RealtimeWindows.

(** The window is a number of samples; its 80000 successors stay folded. *)
Local Opaque window.

Section Loop.
Context {A : Type}.
Variable pipeline : list A -> Py.result (list Turn).
Variable transcribe : list A -> Py.result Transcription.
Variable strip : string -> string.

Lemma process_turns_prefix (audio : list A) (sr : Z) (turns : list Turn) :
  forall acc results status,
    process_turns transcribe strip audio sr turns acc = (results, status) ->
    exists k,
      k <= length turns /\
      results = acc ++ omap (emitted_for transcribe strip audio sr) (take k turns) /\
      (status = None -> k = length turns) /\
      (status <> None -> k < length turns).
Proof.
  induction turns as [|turn turns IH]; intros acc results status; simpl.
  - intros [= <- <-]. exists 0. by rewrite app_nil_r.
  - destruct (turn_segment audio sr turn) as [segment|msg] eqn:Hseg.
    2:{ intros [= <- <-]. exists 0. simpl. rewrite app_nil_r.
        repeat split; try done; lia. }
    destruct (Z.of_nat (length segment) <? sr / 2)%Z eqn:Hshort.
    + assert (Hem : emitted_for transcribe strip audio sr turn = None)
        by (unfold emitted_for; by rewrite Hseg, Hshort).
      intros (k & Hk & -> & Hnone & Hsome)%IH. exists (S k). simpl. rewrite Hem.
      repeat split; auto; try lia. intros H. specialize (Hsome H). lia.
    + destruct (transcribe segment) as [result|msg] eqn:Htr.
      2:{ intros [= <- <-]. exists 0. simpl. rewrite app_nil_r.
          repeat split; try done; lia. }
      assert (Hem : emitted_for transcribe strip audio sr turn
                    = Some {| speaker := turn_speaker turn; start := turn_start turn;
                              end_ := turn_end turn;
                              language := whisper_language result;
                              text := strip (whisper_text result) |})
        by (unfold emitted_for; by rewrite Hseg, Hshort, Htr).
      intros (k & Hk & -> & Hnone & Hsome)%IH. exists (S k). simpl.
      rewrite Hem, <- app_assoc.
      repeat split; auto; try lia. intros H. specialize (Hsome H). lia.
Qed.

(** What [main_loop] emits is what [process_chunk] emits on the windows. *)
Lemma main_loop_windows (frames : list (list A)) : forall buffer out,
  match main_loop pipeline transcribe strip frames buffer out with
  | Listening buffer' out' =>
      buffer' = leftover frames buffer /\
      out' = out ++ map (fun w => (process_chunk pipeline transcribe strip w SAMPLE_RATE).1)
                      (windows frames buffer)
  | Crashed e out' =>
      exists k,
        k < length (windows frames buffer) /\
        out' = out ++ map (fun w => (process_chunk pipeline transcribe strip w SAMPLE_RATE).1)
                        (take (S k) (windows frames buffer))
  end.
Proof.
  induction frames as [|chunk frames IH]; intros buffer out; simpl.
  - by rewrite app_nil_r.
  - destruct (window <=? length (buffer ++ [chunk]) * length chunk)%nat; [|apply IH].
    destruct (process_chunk pipeline transcribe strip
                (take window (concat (buffer ++ [chunk]))) SAMPLE_RATE)
      as [results [e|]] eqn:Hpc.
    + exists 0. simpl. rewrite Hpc. split; [lia|done].
    + specialize (IH [drop window (concat (buffer ++ [chunk]))] (out ++ [results])).
      destruct (main_loop pipeline transcribe strip frames _ _) as [b' out'|e out'].
      * destruct IH as [-> ->]. split; [done|]. simpl. by rewrite Hpc, <- app_assoc.
      * destruct IH as (k & Hk & ->). exists (S k). split; [simpl; lia|].
        simpl. by rewrite Hpc, <- app_assoc.
Qed.

End Loop.

Lemma windows_round_trip {A} (frames : list (list A)) : forall buffer,
  concat (windows frames buffer) ++ concat (leftover frames buffer)
  = concat buffer ++ concat frames /\
  Forall (fun w => length w <= window) (windows frames buffer).
Proof.
  induction frames as [|chunk frames IH]; intros buffer; simpl.
  - split; [by rewrite app_nil_r|constructor].
  - destruct (window <=? length (buffer ++ [chunk]) * length chunk)%nat.
    + destruct (IH [drop window (concat (buffer ++ [chunk]))]) as [Hrt Hlen].
      split.
      * simpl in *. rewrite <- app_assoc, Hrt. simpl. rewrite app_nil_r.
        rewrite app_assoc, take_drop, concat_app. simpl.
        by rewrite app_nil_r, <- app_assoc.
      * constructor; [|done]. rewrite length_take. lia.
    + destruct (IH (buffer ++ [chunk])) as [Hrt Hlen]. split; [|done].
      rewrite Hrt, concat_app. simpl. by rewrite app_nil_r, <- app_assoc.
Qed.

(** X17. Segments are emitted in turn order, and an exception stops the
    loop where it is raised: what a chunk has emitted is what the first
    [k] turns contribute, for all the turns when nothing was raised and for
    a proper prefix otherwise. *)
Theorem segments_follow_turn_order {A}
    (transcribe : list A -> Py.result Transcription) (strip : string -> string)
    (audio : list A) (sample_rate : Z) (turns : list Turn)
    (results : list Segment) (status : option string) :
  process_turns transcribe strip audio sample_rate turns [] = (results, status) ->
  exists k,
    k <= length turns /\
    results = omap (emitted_for transcribe strip audio sample_rate) (take k turns) /\
    (status = None -> k = length turns) /\
    (status <> None -> k < length turns).
Proof.
  intros Hrun.
  by apply (process_turns_prefix transcribe strip audio sample_rate turns []).
Qed.

Lemma segments_follow_turn_order_witness :
  exists k,
    k <= length [RealtimeExamples.one_turn; RealtimeExamples.brief] /\
    [{| speaker := "SPEAKER_00"; start := 1; end_ := 2; language := "en"; text := "hi" |}]
    = omap (emitted_for RealtimeExamples.whisper RealtimeExamples.no_strip
              RealtimeExamples.short_audio 8)
        (take k [RealtimeExamples.one_turn; RealtimeExamples.brief]) /\
    (@None string = None -> k = length [RealtimeExamples.one_turn; RealtimeExamples.brief]) /\
    (@None string <> None -> k < length [RealtimeExamples.one_turn; RealtimeExamples.brief]).
Proof.
  apply (segments_follow_turn_order RealtimeExamples.whisper RealtimeExamples.no_strip
           RealtimeExamples.short_audio 8
           [RealtimeExamples.one_turn; RealtimeExamples.brief]).
  vm_compute. reflexivity.
Defined.

(** X18. The realtime loop loses and repeats no sample either: the arrays
    it hands to [process_chunk], in order, followed by what is left in its
    buffer, are the frames' samples in capture order.  No array is longer
    than the five-second window; the segments [main] emits are those of
    [process_chunk] on these arrays, up to the first that raises. *)
Theorem realtime_round_trip {A}
    (pipeline : list A -> Py.result (list Turn))
    (transcribe : list A -> Py.result Transcription) (strip : string -> string)
    (frames : list (list A)) :
  concat (windows frames []) ++ concat (leftover frames []) = concat frames /\
  Forall (fun w => length w <= window) (windows frames []) /\
  match main pipeline transcribe strip frames with
  | Listening buffer out =>
      buffer = leftover frames [] /\
      out = map (fun w => (process_chunk pipeline transcribe strip w SAMPLE_RATE).1)
              (windows frames [])
  | Crashed e out =>
      exists k,
        k < length (windows frames []) /\
        out = map (fun w => (process_chunk pipeline transcribe strip w SAMPLE_RATE).1)
                (take (S k) (windows frames []))
  end.
Proof.
  destruct (windows_round_trip frames []) as [Hrt Hlen].
  split; [exact Hrt|]. split; [exact Hlen|].
  apply (main_loop_windows pipeline transcribe strip frames [] []).
Qed.

(** ** Frames of one size *)

Section Uniform.
Context {A : Type}.
Variables n q : nat.
Hypothesis n_pos : 0 < n.
Hypothesis q_two : 2 <= q.
Hypothesis window_frames : window = q * n.

(** After a window has been cut the buffer holds one empty array and the
    frames since: the test counts that array as a frame. *)
Lemma windows_after_first (frames : list (list A)) : forall buffer j,
  Forall (fun f => length f = n) frames ->
  length buffer = S j -> length (concat buffer) = j * n -> S j < q ->
  Forall (fun w => length w = window - n) (windows frames buffer).
Proof.
  induction frames as [|chunk frames IH]; intros buffer j Hall Hb Hc Hj; simpl;
    [constructor|].
  apply Forall_cons in Hall as [Hchunk Hall].
  assert (Hb' : length (buffer ++ [chunk]) = S (S j)) by (rewrite length_app; simpl; lia).
  assert (Hc' : length (concat (buffer ++ [chunk])) = S j * n).
  { rewrite concat_app, length_app. simpl. rewrite app_nil_r. lia. }
  rewrite Hb', Hchunk.
  destruct (Nat.leb_spec window (S (S j) * n)) as [Hle|Hlt].
  - assert (Hq : q = S (S j)) by nia.
    constructor.
    + rewrite length_take, Hc'. nia.
    + apply (IH [drop window (concat (buffer ++ [chunk]))] 0 Hall).
      * reflexivity.
      * simpl. rewrite app_nil_r, length_drop, Hc'. nia.
      * lia.
  - apply (IH _ (S j)); auto. nia.
Qed.

Lemma windows_first (frames : list (list A)) : forall buffer j,
  Forall (fun f => length f = n) frames ->
  length buffer = j -> length (concat buffer) = j * n -> j < q ->
  match windows frames buffer with
  | [] => True
  | w :: ws => length w = window /\ Forall (fun w' => length w' = window - n) ws
  end.
Proof.
  induction frames as [|chunk frames IH]; intros buffer j Hall Hb Hc Hj; simpl; [done|].
  apply Forall_cons in Hall as [Hchunk Hall].
  assert (Hb' : length (buffer ++ [chunk]) = S j) by (rewrite length_app; simpl; lia).
  assert (Hc' : length (concat (buffer ++ [chunk])) = S j * n).
  { rewrite concat_app, length_app. simpl. rewrite app_nil_r. lia. }
  rewrite Hb', Hchunk.
  destruct (Nat.leb_spec window (S j * n)) as [Hle|Hlt].
  - assert (Hq : q = S j) by nia. split.
    + rewrite length_take, Hc'. nia.
    + apply (windows_after_first frames [drop window (concat (buffer ++ [chunk]))] 0 Hall).
      * reflexivity.
      * simpl. rewrite app_nil_r, length_drop, Hc'. nia.
      * lia.
  - apply (IH _ (S j)); auto. nia.
Qed.

End Uniform.

(** X19. With frames of one size [n] that divides the window at least twice,
    the first array handed to [process_chunk] holds a full window and every
    later one is a frame short, [window - n] samples: once a window has been
    cut, the emptied buffer still counts as one frame in the test
    [len(buffer) * chunk.shape[0] >= SAMPLE_RATE * CHUNK_DURATION]. *)
Theorem later_windows_are_a_frame_short {A} (n q : nat) (frames : list (list A)) :
  0 < n -> 2 <= q -> window = q * n ->
  Forall (fun f => length f = n) frames ->
  match windows frames [] with
  | [] => True
  | w :: ws => length w = window /\ Forall (fun w' => length w' = window - n) ws
  end.
Proof.
  intros Hn Hq Hw Hall.
  apply (windows_first n q Hn Hq Hw frames [] 0); auto. lia.
Qed.

Lemma later_windows_are_a_frame_short_witness :
  match windows (replicate 45 (replicate 4000 0%Z)) [] with
  | [] => True
  | w :: ws => length w = window /\ Forall (fun w' => length w' = window - 4000) ws
  end.
Proof.
  apply (later_windows_are_a_frame_short 4000 20 (replicate 45 (replicate 4000 0%Z))).
  - lia.
  - lia.
  - apply Nat2Z.inj. rewrite Nat2Z.inj_mul.
    change (Z.of_nat window) with (Z.of_nat (Z.to_nat (SAMPLE_RATE * CHUNK_DURATION))).
    rewrite Z2Nat.id; [reflexivity|discriminate].
  - apply Forall_replicate. apply length_replicate.
Defined.

(** The example in numbers: 45 frames of 4000 samples give a window of
    80000 samples and one of 76000. *)
Example uniform_frames_run :
  map (fun w => Z.of_nat (length w)) (windows (replicate 45 (replicate 4000 0%Z)) [])
  = [80000; 76000]%Z.
Proof. vm_compute. reflexivity. Qed.

End RealtimeMore.

(* ================================================================== *)
(** * Identification: threshold, ties and order *)
(* ================================================================== *)

Module NearestFacts.
Import Registry RegistryDict Nearest FloatFacts RegistryFacts IdentifyMore StringFacts.
Local Open Scope float_scope.

(** ** Positions in a filtered list *)

Lemma omap_lookup_inv {X Y} (g : X -> option Y) (l : list X) : forall i y,
  omap g l !! i = Some y ->
  exists k x, l !! k = Some x /\ g x = Some y /\ i = length (omap g (take k l)).
Proof.
  induction l as [|x l IH]; intros i y; simpl; [by rewrite lookup_nil|].
  destruct (g x) as [y0|] eqn:Hx.
  - destruct i as [|i]; simpl.
    + intros [= <-]. by exists 0%nat, x.
    + intros (k & x' & Hk & Hg & ->)%IH. exists (S k), x'. simpl. by rewrite Hx.
  - intros (k & x' & Hk & Hg & ->)%IH. exists (S k), x'. simpl. by rewrite Hx.
Qed.

Lemma omap_lookup_before {X Y} (g : X -> option Y) (l : list X) : forall k' k x' y',
  l !! k' = Some x' -> g x' = Some y' -> (k' < k)%nat ->
  omap g l !! length (omap g (take k' l)) = Some y' /\
  (length (omap g (take k' l)) < length (omap g (take k l)))%nat.
Proof.
  induction l as [|x l IH]; intros k' k x' y' Hk' Hg Hlt; [by rewrite lookup_nil in Hk'|].
  destruct k as [|k]; [lia|]. destruct k' as [|k']; simpl in *.
  - injection Hk' as ->. rewrite Hg. simpl. split; [done|lia].
  - destruct (IH k' k x' y' Hk' Hg) as [H1 H2]; [lia|].
    destruct (g x); simpl; (split; [exact H1|]).
    + apply ->Nat.succ_lt_mono. exact H2.
    + exact H2.
Qed.

Section Identify.
Context {Emb : Type}.
Variable cdist_cosine : Emb -> Emb -> float.

(** A row either holds a NaN or holds numbers only. *)
Lemma row_nan_or_numbers (e : Emb) (reg : list (string * Emb)) :
  (exists p, p ∈ reg /\ is_nan (cdist_cosine e p.2) = true) \/
  (forall p, p ∈ reg -> is_nan (cdist_cosine e p.2) = false).
Proof.
  induction reg as [|p reg IH].
  - right. by intros p H%elem_of_nil.
  - destruct (is_nan (cdist_cosine e p.2)) eqn:Hp.
    + left. exists p. split; [by left|done].
    + destruct IH as [(q & Hq & Hnan)|Hnum].
      * left. exists q. split; [by right|done].
      * right. intros q [->|Hq]%elem_of_cons; auto.
Qed.

(** With a NaN in the row the answer is "Unknown". *)
Lemma identify_speaker_nan (e : Emb) (reg : list (string * Emb)) (thr : float) p :
  p ∈ reg -> is_nan (cdist_cosine e p.2) = true ->
  identify_speaker cdist_cosine e reg thr = "Unknown"%string.
Proof.
  intros Hin Hnan.
  destruct (argmin_nan (distances cdist_cosine e reg)) as (m & Hm & Hmnan).
  { apply Exists_exists. exists (cdist_cosine e p.2). split; [|done].
    apply list_elem_of_lookup_1 in Hin as [j Hj].
    apply (list_elem_of_lookup_2 _ j). by rewrite distances_lookup, Hj. }
  destruct (selected_is_Some cdist_cosine e reg) as (name & emb & Hsel & Hd).
  { intros ->. by apply elem_of_nil in Hin. }
  rewrite (identify_speaker_selected cdist_cosine e reg thr name emb Hsel).
  assert (m = cdist_cosine e emb) as <- by congruence.
  by rewrite (ltb_nan_l m thr Hmnan).
Qed.

(** In a row of numbers the profile selected is at the minimum distance,
    and every profile standing before it is strictly farther. *)
Lemma selected_closest (e : Emb) (reg : list (string * Emb)) :
  reg <> [] ->
  (forall p, p ∈ reg -> is_nan (cdist_cosine e p.2) = false) ->
  exists name emb,
    selected cdist_cosine e reg = Some (name, emb) /\
    closest cdist_cosine e reg (name, emb) /\
    forall j q, (j < argmin (distances cdist_cosine e reg))%nat -> reg !! j = Some q ->
                (cdist_cosine e emb <? cdist_cosine e q.2) = true.
Proof.
  intros Hreg Hnum.
  destruct (selected_is_Some cdist_cosine e reg Hreg) as (name & emb & Hsel & Hd).
  assert (Hin : (name, emb) ∈ reg)
    by (unfold selected in Hsel; by eapply list_elem_of_lookup_2).
  destruct (argmin_selects (distances cdist_cosine e reg)) as (m & Hm & Hcase).
  { destruct reg; [done|discriminate]. }
  assert (m = cdist_cosine e emb) as -> by congruence.
  destruct Hcase as [Hnan|(_ & _ & Hle & Hlt)].
  { pose proof (Hnum _ Hin) as Hn. simpl in Hn. congruence. }
  exists name, emb. split; [done|]. split; [split; [done|]|].
  - intros q [j Hj]%list_elem_of_lookup_1. apply (Hle j). by rewrite distances_lookup, Hj.
  - intros j q Hj Hq. apply (Hlt j); [done|]. by rewrite distances_lookup, Hq.
Qed.

End Identify.

(** Two numbers below or equal to one another are equal. *)
Lemma leb_antisym (x y : float) :
  (x <=? y) = true -> (y <=? x) = true -> (x =? y) = true.
Proof.
  rewrite !FloatAxioms.leb_spec, FloatAxioms.eqb_spec. unfold SFleb, SFeqb.
  rewrite (SFcompare_swap (Prim2SF x) (Prim2SF y)).
  destruct (SFcompare (Prim2SF x) (Prim2SF y)) as [[]|]; simpl; congruence.
Qed.

(** ** The registry of a listing *)

(** A profile of the registry comes from a listed file: its name is the
    file's without the ending, its embedding what the file holds. *)
Lemma profile_of_Some {Emb} (files : gmap string Emb) (f name : string) (emb : Emb) :
  profile_of files f = Some (name, emb) -> f = npy name /\ files !! npy name = Some emb.
Proof.
  unfold profile_of. destruct (Py.endswith f ".npy") eqn:Hend; [|discriminate].
  destruct (files !! f) as [e0|] eqn:Hf; [|discriminate]. simpl.
  intros [= <- <-]. apply RegistryMore.endswith_npy in Hend.
  split; [exact Hend|]. by rewrite <- Hend.
Qed.

Lemma load_in_order {Emb} (files : gmap string Emb) (listing : list string)
    (reg : list (string * Emb)) :
  NoDup listing ->
  load_enrolled_speakers (Some files) listing = Py.Ok reg ->
  reg = omap (profile_of files) listing.
Proof.
  intros Hnd Hload.
  apply (RegistryMore.load_files_in_order files listing [] reg Hnd); [|exact Hload].
  intros f _ _ Hin. by apply elem_of_nil in Hin.
Qed.

(** C2 (as amended).  For a non-empty registry whose distances from the
    turn are all numbers, [np.argmin] selects a profile of the registry at
    the minimum distance: its distance is below or equal to that of every
    profile, and any profile that none is strictly closer than is at that
    same distance.  Its name is returned exactly when that distance is
    strictly below the threshold; otherwise, in particular at a distance
    equal to the threshold, the answer is "Unknown".  The default threshold
    is the literal [0.7]. *)
Theorem accepted_iff_below_threshold {Emb} (cdist_cosine : Emb -> Emb -> float)
    (e : Emb) (reg : list (string * Emb)) (thr : float) :
  reg <> [] ->
  (forall p, p ∈ reg -> is_nan (cdist_cosine e p.2) = false) ->
  exists name emb,
    selected cdist_cosine e reg = Some (name, emb) /\
    (name, emb) ∈ reg /\
    (forall p, p ∈ reg -> (cdist_cosine e emb <=? cdist_cosine e p.2) = true) /\
    (forall p, p ∈ reg ->
       (forall q, q ∈ reg -> (cdist_cosine e q.2 <? cdist_cosine e p.2) = false) ->
       (cdist_cosine e p.2 <? thr) = true ->
       (cdist_cosine e emb =? cdist_cosine e p.2) = true /\
       identify_speaker cdist_cosine e reg thr = name) /\
    ((cdist_cosine e emb <? thr) = true ->
     identify_speaker cdist_cosine e reg thr = name) /\
    ((cdist_cosine e emb <? thr) = false ->
     identify_speaker cdist_cosine e reg thr = "Unknown"%string) /\
    ((cdist_cosine e emb =? thr) = true ->
     identify_speaker cdist_cosine e reg thr = "Unknown"%string) /\
    DEFAULT_THRESHOLD = 0x1.6666666666666p-1.
Proof.
  intros Hreg Hnum.
  destruct (selected_closest cdist_cosine e reg Hreg Hnum)
    as (name & emb & Hsel & [Hin Hmin] & _).
  exists name, emb. split; [exact Hsel|]. split; [exact Hin|]. split; [exact Hmin|].
  rewrite (identify_speaker_selected cdist_cosine e reg thr name emb Hsel).
  split; [|split; [|split; [|split]]].
  - intros p Hp Hleast Hlt.
    pose proof (Hmin p Hp) as Hle. simpl in Hle. pose proof (Hleast (name, emb) Hin) as Hnlt.
    pose proof (Hnum _ Hin) as Hn. simpl in Hnlt, Hn.
    assert (Hge : (cdist_cosine e p.2 <=? cdist_cosine e emb) = true).
    { destruct (cdist_cosine e p.2 <=? cdist_cosine e emb) eqn:Hge; [done|].
      rewrite (leb_total _ _ (Hnum p Hp) Hn Hge) in Hnlt. discriminate. }
    split; [by apply leb_antisym|].
    by rewrite (leb_ltb_trans _ _ _ Hle Hlt).
  - by intros ->.
  - by intros ->.
  - intros Heq. by rewrite (eqb_not_ltb _ _ Heq).
  - reflexivity.
Qed.

Lemma accepted_iff_below_threshold_witness :
  exists name emb,
    selected RegistryExamples.cosine RegistryExamples.north RegistryExamples.registry
    = Some (name, emb) /\
    (name, emb) ∈ RegistryExamples.registry /\
    (forall p, p ∈ RegistryExamples.registry ->
       (RegistryExamples.cosine RegistryExamples.north emb
        <=? RegistryExamples.cosine RegistryExamples.north p.2) = true) /\
    (forall p, p ∈ RegistryExamples.registry ->
       (forall q, q ∈ RegistryExamples.registry ->
          (RegistryExamples.cosine RegistryExamples.north q.2
           <? RegistryExamples.cosine RegistryExamples.north p.2) = false) ->
       (RegistryExamples.cosine RegistryExamples.north p.2 <? DEFAULT_THRESHOLD) = true ->
       (RegistryExamples.cosine RegistryExamples.north emb
        =? RegistryExamples.cosine RegistryExamples.north p.2) = true /\
       identify_speaker RegistryExamples.cosine RegistryExamples.north
         RegistryExamples.registry DEFAULT_THRESHOLD = name) /\
    ((RegistryExamples.cosine RegistryExamples.north emb <? DEFAULT_THRESHOLD) = true ->
     identify_speaker RegistryExamples.cosine RegistryExamples.north
       RegistryExamples.registry DEFAULT_THRESHOLD = name) /\
    ((RegistryExamples.cosine RegistryExamples.north emb <? DEFAULT_THRESHOLD) = false ->
     identify_speaker RegistryExamples.cosine RegistryExamples.north
       RegistryExamples.registry DEFAULT_THRESHOLD = "Unknown"%string) /\
    ((RegistryExamples.cosine RegistryExamples.north emb =? DEFAULT_THRESHOLD) = true ->
     identify_speaker RegistryExamples.cosine RegistryExamples.north
       RegistryExamples.registry DEFAULT_THRESHOLD = "Unknown"%string) /\
    DEFAULT_THRESHOLD = 0x1.6666666666666p-1.
Proof.
  apply (accepted_iff_below_threshold RegistryExamples.cosine RegistryExamples.north
           RegistryExamples.registry DEFAULT_THRESHOLD).
  - discriminate.
  - intros p Hp. apply list_elem_of_In in Hp.
    destruct Hp as [<-|[<-|[]]]; vm_compute; reflexivity.
Defined.

(** C2 as stated fails.  Alice is enrolled with the turn's own vector,
    Mute with an all-zero vector, Bob with an orthogonal one: the distances
    are 0, NaN and 1.  Alice is at the minimum distance, 0, below the
    default threshold, yet [np.argmin] points at the NaN and the answer is
    "Unknown". *)
Lemma nan_distance_hides_closest_profile :
  ~ closest_profile_is_accepted RegistryExamples.cosine.
Proof.
  intros Hrule.
  destruct (Hrule RegistryExamples.east RegistryExamples.registry_with_zero
              DEFAULT_THRESHOLD ("Alice"%string, RegistryExamples.east))
    as (q & Hq & _ & Hid).
  - apply list_elem_of_In. simpl. auto.
  - vm_compute. reflexivity.
  - intros q Hq. apply list_elem_of_In in Hq.
    destruct Hq as [<-|[<-|[<-|[]]]]; vm_compute; reflexivity.
  - vm_compute. reflexivity.
  - apply list_elem_of_In in Hq.
    destruct Hq as [<-|[<-|[<-|[]]]]; vm_compute in Hid; discriminate.
Qed.

(** C3 (as amended).  The registry that [load_enrolled_speakers] builds
    from a listing without repeats holds the profiles of the listed [.npy]
    files in the order of the listing.  When its distances from the turn
    are all numbers, the profile selected comes from a listed file, is at
    the minimum distance, and every profile from a file listed before its
    own is strictly farther: of the profiles tied at the minimum distance
    the one whose file [os.listdir] lists first is selected, and its name is
    the answer when that distance is below the threshold.  No time of
    enrollment is recorded or consulted. *)
Theorem tie_goes_to_first_listed_file {Emb} (cdist_cosine : Emb -> Emb -> float)
    (e : Emb) (thr : float) (files : gmap string Emb) (listing : list string)
    (reg : list (string * Emb)) :
  NoDup listing ->
  load_enrolled_speakers (Some files) listing = Py.Ok reg ->
  reg <> [] ->
  (forall p, p ∈ reg -> is_nan (cdist_cosine e p.2) = false) ->
  reg = omap (profile_of files) listing /\
  exists name emb k,
    selected cdist_cosine e reg = Some (name, emb) /\
    listing !! k = Some (npy name) /\
    files !! npy name = Some emb /\
    (forall p, p ∈ reg -> (cdist_cosine e emb <=? cdist_cosine e p.2) = true) /\
    (forall k' f p, (k' < k)%nat -> listing !! k' = Some f ->
       profile_of files f = Some p ->
       (cdist_cosine e emb <? cdist_cosine e p.2) = true) /\
    (forall k' name' emb', listing !! k' = Some (npy name') ->
       files !! npy name' = Some emb' ->
       (cdist_cosine e emb' =? cdist_cosine e emb) = true ->
       (k <= k')%nat) /\
    ((cdist_cosine e emb <? thr) = true ->
     identify_speaker cdist_cosine e reg thr = name) /\
    ((cdist_cosine e emb <? thr) = false ->
     identify_speaker cdist_cosine e reg thr = "Unknown"%string).
Proof.
  intros Hnd Hload Hreg Hnum.
  pose proof (load_in_order files listing reg Hnd Hload) as Horder.
  split; [exact Horder|].
  destruct (selected_closest cdist_cosine e reg Hreg Hnum)
    as (name & emb & Hsel & [Hin Hmin] & Hbefore).
  assert (Hpos : omap (profile_of files) listing
                 !! argmin (distances cdist_cosine e reg) = Some (name, emb))
    by (rewrite <- Horder; exact Hsel).
  apply omap_lookup_inv in Hpos as (k & f & Hk & Hf & Hidx).
  apply profile_of_Some in Hf as [-> Hfile].
  assert (Hfar : forall k' f p, (k' < k)%nat -> listing !! k' = Some f ->
            profile_of files f = Some p ->
            (cdist_cosine e emb <? cdist_cosine e p.2) = true).
  { intros k' f p Hlt Hk' Hp.
    destruct (omap_lookup_before (profile_of files) listing k' k f p Hk' Hp Hlt)
      as [Hlook Hless].
    apply (Hbefore (length (omap (profile_of files) (take k' listing))) p).
    - rewrite Hidx. exact Hless.
    - rewrite Horder. exact Hlook. }
  exists name, emb, k.
  rewrite (identify_speaker_selected cdist_cosine e reg thr name emb Hsel).
  repeat split; auto.
  - intros k' name' emb' Hk' Hfile' Heq.
    destruct (le_lt_dec k k') as [|Hlt]; [done|].
    assert (Hp : profile_of files (npy name') = Some (name', emb')).
    { unfold profile_of. rewrite RegistryMore.npy_endswith, Hfile'. simpl.
      f_equal. f_equal.
      pose proof (RegistryMore.endswith_npy (npy name') (RegistryMore.npy_endswith name')) as Hn.
      apply RegistryMore.npy_inj in Hn. by rewrite <- Hn. }
    pose proof (Hfar k' (npy name') (name', emb') Hlt Hk' Hp) as Hstrict.
    simpl in Hstrict. rewrite (ltb_not_eqb _ _ Hstrict) in Heq. discriminate.
  - by intros ->.
  - by intros ->.
Qed.

Lemma tie_goes_to_first_listed_file_witness :
  RegistryExamples.twins_registry
  = omap (profile_of RegistryExamples.twins_files) RegistryExamples.twins_listing /\
  exists name emb k,
    selected RegistryExamples.cosine RegistryExamples.east RegistryExamples.twins_registry
    = Some (name, emb) /\
    RegistryExamples.twins_listing !! k = Some (npy name) /\
    RegistryExamples.twins_files !! npy name = Some emb /\
    (forall p, p ∈ RegistryExamples.twins_registry ->
       (RegistryExamples.cosine RegistryExamples.east emb
        <=? RegistryExamples.cosine RegistryExamples.east p.2) = true) /\
    (forall k' f p, (k' < k)%nat -> RegistryExamples.twins_listing !! k' = Some f ->
       profile_of RegistryExamples.twins_files f = Some p ->
       (RegistryExamples.cosine RegistryExamples.east emb
        <? RegistryExamples.cosine RegistryExamples.east p.2) = true) /\
    (forall k' name' emb', RegistryExamples.twins_listing !! k' = Some (npy name') ->
       RegistryExamples.twins_files !! npy name' = Some emb' ->
       (RegistryExamples.cosine RegistryExamples.east emb'
        =? RegistryExamples.cosine RegistryExamples.east emb) = true ->
       (k <= k')%nat) /\
    ((RegistryExamples.cosine RegistryExamples.east emb <? DEFAULT_THRESHOLD) = true ->
     identify_speaker RegistryExamples.cosine RegistryExamples.east
       RegistryExamples.twins_registry DEFAULT_THRESHOLD = name) /\
    ((RegistryExamples.cosine RegistryExamples.east emb <? DEFAULT_THRESHOLD) = false ->
     identify_speaker RegistryExamples.cosine RegistryExamples.east
       RegistryExamples.twins_registry DEFAULT_THRESHOLD = "Unknown"%string).
Proof.
  apply (tie_goes_to_first_listed_file RegistryExamples.cosine RegistryExamples.east
           DEFAULT_THRESHOLD RegistryExamples.twins_files RegistryExamples.twins_listing
           RegistryExamples.twins_registry).
  - apply NoDup_cons. split; [|apply NoDup_singleton].
    intros Hin. apply list_elem_of_singleton in Hin. discriminate.
  - vm_compute. reflexivity.
  - discriminate.
  - intros p Hp. apply list_elem_of_In in Hp.
    destruct Hp as [<-|[<-|[]]]; vm_compute; reflexivity.
Defined.

(** Two listings of one directory, in whatever order, load the same
    profiles. *)
Lemma loads_hold_same_profiles {Emb} (files : gmap string Emb)
    (listing listing' : list string) (reg reg' : list (string * Emb)) :
  NoDup listing -> listing' ≡ₚ listing ->
  load_enrolled_speakers (Some files) listing = Py.Ok reg ->
  load_enrolled_speakers (Some files) listing' = Py.Ok reg' ->
  reg' ≡ₚ reg.
Proof.
  intros Hnd Hperm Hload Hload'.
  assert (Hnd' : NoDup listing') by by rewrite Hperm.
  rewrite (load_in_order files listing reg Hnd Hload).
  rewrite (load_in_order files listing' reg' Hnd' Hload').
  by rewrite Hperm.
Qed.

(** C7 (as amended).  Two registries that hold the same profiles, in
    whatever order each was loaded, give the same answer for the same turn
    and threshold, provided the profiles at the minimum distance, when that
    distance is below the threshold, all carry one name.  Two loads of one
    directory are such registries: they differ by the order in which
    [os.listdir] listed the files. *)
Theorem same_profiles_same_answer {Emb} (cdist_cosine : Emb -> Emb -> float)
    (e : Emb) (reg reg' : list (string * Emb)) (thr : float) :
  reg' ≡ₚ reg ->
  (forall p q, closest cdist_cosine e reg p -> closest cdist_cosine e reg q ->
               (cdist_cosine e p.2 <? thr) = true -> p.1 = q.1) ->
  identify_speaker cdist_cosine e reg' thr = identify_speaker cdist_cosine e reg thr.
Proof.
  intros Hperm Hone.
  destruct reg as [|p0 reg0] eqn:Ereg.
  { apply Permutation_nil_r in Hperm. by subst reg'. }
  rewrite <- Ereg in *.
  assert (Hreg : reg <> []) by (rewrite Ereg; discriminate).
  assert (Hreg' : reg' <> []).
  { intros ->. symmetry in Hperm. apply Permutation_nil_r in Hperm. done. }
  clear Ereg p0 reg0.
  destruct (row_nan_or_numbers cdist_cosine e reg) as [(p & Hp & Hnan)|Hnum].
  - rewrite (identify_speaker_nan cdist_cosine e reg thr p Hp Hnan).
    apply (identify_speaker_nan cdist_cosine e reg' thr p); [|exact Hnan].
    by rewrite Hperm.
  - assert (Hnum' : forall p, p ∈ reg' -> is_nan (cdist_cosine e p.2) = false).
    { intros p Hp. apply Hnum. by rewrite <- Hperm. }
    destruct (selected_closest cdist_cosine e reg Hreg Hnum)
      as (name & emb & Hsel & [Hin Hmin] & _).
    destruct (selected_closest cdist_cosine e reg' Hreg' Hnum')
      as (name' & emb' & Hsel' & [Hin' Hmin'] & _).
    rewrite (identify_speaker_selected cdist_cosine e reg thr name emb Hsel).
    rewrite (identify_speaker_selected cdist_cosine e reg' thr name' emb' Hsel').
    assert (Hin2 : (name', emb') ∈ reg) by by rewrite <- Hperm.
    assert (Hcl : closest cdist_cosine e reg (name, emb)) by by split.
    assert (Hcl' : closest cdist_cosine e reg (name', emb')).
    { split; [done|]. intros q Hq. apply Hmin'. by rewrite Hperm. }
    pose proof (Hmin _ Hin2) as Hle. pose proof (Hmin' (name, emb)) as Hle'.
    simpl in Hle, Hle'.
    assert (Hle2 : (cdist_cosine e emb' <=? cdist_cosine e emb) = true)
      by (apply Hle'; by rewrite Hperm).
    destruct (cdist_cosine e emb <? thr) eqn:Hlt.
    + rewrite (leb_ltb_trans _ _ _ Hle2 Hlt).
      symmetry. apply (Hone (name, emb) (name', emb') Hcl Hcl' Hlt).
    + destruct (cdist_cosine e emb' <? thr) eqn:Hlt'; [|reflexivity].
      rewrite (leb_ltb_trans _ _ _ Hle Hlt') in Hlt. discriminate.
Qed.

Lemma same_profiles_same_answer_witness :
  identify_speaker RegistryExamples.cosine RegistryExamples.east
    RegistryExamples.registry_reversed DEFAULT_THRESHOLD
  = identify_speaker RegistryExamples.cosine RegistryExamples.east
      RegistryExamples.registry DEFAULT_THRESHOLD.
Proof.
  apply (same_profiles_same_answer RegistryExamples.cosine RegistryExamples.east
           RegistryExamples.registry RegistryExamples.registry_reversed DEFAULT_THRESHOLD).
  - apply perm_swap.
  - intros p q [Hp Hpmin] [Hq Hqmin] _.
    pose proof (Hpmin _ Hq) as Hpq. pose proof (Hqmin _ Hp) as Hqp.
    apply list_elem_of_In in Hp, Hq.
    destruct Hp as [<-|[<-|[]]], Hq as [<-|[<-|[]]];
      try reflexivity; vm_compute in Hpq, Hqp; discriminate.
Defined.

(** C7 as stated fails when the registry state is what is enrolled.  Alice
    and Bob are enrolled from the same recording.  Loaded as Alice, Bob the
    registry answers "Alice" for a turn at distance 0 from both; loaded as
    Bob, Alice, the same mapping of names to embeddings, it answers "Bob". *)
Lemma tied_profiles_answer_by_order :
  ~ same_registry_same_answer RegistryExamples.cosine.
Proof.
  intros Hrule.
  specialize (Hrule RegistryExamples.east RegistryExamples.twins_registry
                RegistryExamples.twins_history DEFAULT_THRESHOLD).
  assert (Hnd : NoDup (map fst RegistryExamples.twins_registry)).
  { apply NoDup_cons. split; [|apply NoDup_singleton].
    intros Hin. apply list_elem_of_singleton in Hin. discriminate. }
  specialize (Hrule Hnd (perm_swap _ _ _)).
  vm_compute in Hrule. discriminate.
Qed.

End NearestFacts.

(* ================================================================== *)
(** * What an adapter failure costs *)
(* ================================================================== *)

Module FailureFacts.
Import Diarization.

(** ** An adapter that raises inside the loop over turns *)

Section RealtimeLoop.
Import Realtime RealtimeWindows.
Local Opaque window.
Context {A : Type}.
Variable pipeline : list A -> Py.result (list Turn).
Variable transcribe : list A -> Py.result Transcription.
Variable strip : string -> string.

(** Whisper raises on a kept turn: the loop ends there, with what the
    turns before it emitted. *)
Lemma realtime_turns_raise (audio : list A) (sr : Z) (before after : list Turn)
    (turn : Turn) (segment : list A) (e : string) :
  forall results,
    Forall (turn_goes_through transcribe audio sr) before ->
    turn_segment audio sr turn = Py.Ok segment ->
    (sr / 2 <= Z.of_nat (length segment))%Z ->
    transcribe segment = Py.Raise e ->
    process_turns transcribe strip audio sr (before ++ turn :: after) results
    = (results ++ omap (emitted_for transcribe strip audio sr) before, Some e).
Proof.
  induction before as [|t before IH]; intros results Hall Hseg Hkeep Hraise; simpl.
  - rewrite Hseg. destruct (Z.ltb_spec (Z.of_nat (length segment)) (sr / 2)); [lia|].
    by rewrite Hraise, app_nil_r.
  - apply Forall_cons in Hall as [(seg & Hs & Hlong) Hall].
    unfold emitted_for. rewrite Hs.
    destruct (Z.ltb_spec (Z.of_nat (length seg)) (sr / 2)) as [Hshort|Hk].
    + by apply IH.
    + destruct (Hlong Hk) as [result ->].
      rewrite (IH _ Hall Hseg Hkeep Hraise), <- app_assoc. reflexivity.
Qed.

(** The first window on which [process_chunk] raises ends [main_loop]:
    the windows before it were processed, those after it never are. *)
Lemma main_loop_crash (frames : list (list A)) :
  forall buffer out n w results e,
    windows frames buffer !! n = Some w ->
    (forall i v, i < n -> windows frames buffer !! i = Some v ->
       (process_chunk pipeline transcribe strip v SAMPLE_RATE).2 = None) ->
    process_chunk pipeline transcribe strip w SAMPLE_RATE = (results, Some e) ->
    main_loop pipeline transcribe strip frames buffer out
    = Crashed e (out ++ map (fun v => (process_chunk pipeline transcribe strip v SAMPLE_RATE).1)
                          (take (S n) (windows frames buffer))).
Proof.
  induction frames as [|chunk frames IH]; intros buffer out n w results e; simpl.
  - by rewrite lookup_nil.
  - destruct (window <=? length (buffer ++ [chunk]) * length chunk)%nat; [|apply IH].
    set (w0 := take window (concat (buffer ++ [chunk]))).
    set (b0 := [drop window (concat (buffer ++ [chunk]))]).
    destruct n as [|n]; simpl.
    + intros [= <-] _ Hpc. by rewrite Hpc.
    + intros Hw Hbefore Hpc.
      pose proof (Hbefore 0 w0 (Nat.lt_0_succ n) eq_refl) as H0.
      destruct (process_chunk pipeline transcribe strip w0 SAMPLE_RATE)
        as [r0 [e0|]] eqn:Hpc0; [discriminate|].
      rewrite (IH b0 (out ++ [r0]) n w results e Hw); [|  |exact Hpc].
      * simpl. by rewrite <- app_assoc.
      * intros i v Hi Hv. apply (Hbefore (S i) v); [lia|exact Hv].
Qed.

(** With no window raising, [main_loop] goes through all of them. *)
Lemma main_loop_listens (frames : list (list A)) :
  forall buffer out,
    (forall v, v ∈ windows frames buffer ->
       (process_chunk pipeline transcribe strip v SAMPLE_RATE).2 = None) ->
    main_loop pipeline transcribe strip frames buffer out
    = Listening (leftover frames buffer)
        (out ++ map (fun v => (process_chunk pipeline transcribe strip v SAMPLE_RATE).1)
                  (windows frames buffer)).
Proof.
  induction frames as [|chunk frames IH]; intros buffer out; simpl.
  - by rewrite app_nil_r.
  - destruct (window <=? length (buffer ++ [chunk]) * length chunk)%nat; [|apply IH].
    set (w0 := take window (concat (buffer ++ [chunk]))).
    set (b0 := [drop window (concat (buffer ++ [chunk]))]).
    intros Hall. pose proof (Hall w0 (list_elem_of_here _ _)) as H0.
    destruct (process_chunk pipeline transcribe strip w0 SAMPLE_RATE)
      as [r0 [e0|]] eqn:Hpc0; [discriminate|].
    rewrite (IH b0 (out ++ [r0])).
    + simpl. by rewrite Hpc0, <- app_assoc.
    + intros v Hv. apply Hall. by right.
Qed.

End RealtimeLoop.

Section FileLoop.
Import FilePipeline.
Context {Emb : Type}.
Variable cdist_cosine : Emb -> Emb -> float.
Variable embed_utterance : list spec_float -> Py.result Emb.
Variable transcribe : list spec_float -> Py.result Transcription.
Variable strip : string -> string.

(** The encoder, or Whisper after it, raises on a kept turn: the loop ends
    there, with the lines of the turns before it. *)
Lemma file_turns_raise (audio : list spec_float) (sr : Z)
    (enrolled : list (string * Emb)) (before after : list Turn)
    (turn : Turn) (segment : list spec_float) (e : string) :
  forall out,
    Forall (turn_goes_through embed_utterance transcribe audio sr) before ->
    turn_segment audio sr turn = Py.Ok segment ->
    (sr <= Z.of_nat (length segment))%Z ->
    embed_utterance segment = Py.Raise e \/
    ((exists embedding, embed_utterance segment = Py.Ok embedding) /\
     transcribe segment = Py.Raise e) ->
    process_turns cdist_cosine embed_utterance transcribe strip audio sr enrolled
      (before ++ turn :: after) out
    = (out ++ omap (printed_for cdist_cosine embed_utterance transcribe strip
                      audio sr enrolled) before, Some e).
Proof.
  induction before as [|t before IH]; intros out Hall Hseg Hkeep Hraise; simpl.
  - rewrite Hseg. destruct (Z.ltb_spec (Z.of_nat (length segment)) sr); [lia|].
    rewrite app_nil_r.
    destruct Hraise as [->|[[embedding ->] ->]]; reflexivity.
  - apply Forall_cons in Hall as [(seg & Hs & Hlong) Hall].
    unfold printed_for. rewrite Hs.
    destruct (Z.ltb_spec (Z.of_nat (length seg)) sr) as [Hshort|Hk].
    + by apply IH.
    + destruct (Hlong Hk) as [[embedding ->] [result ->]].
      rewrite (IH _ Hall Hseg Hkeep Hraise), <- app_assoc. reflexivity.
Qed.

End FileLoop.

(** C4 (as amended).  [capture_and_translate.py]: when the request for
    chunk [k] raises, no result is shown for chunk [k]; the run ends or goes
    on exactly as in a world where that request did not fail, with the same
    windows, the same buffer and the same lines about every other chunk; the
    outer [except Exception] is reached only when the stream did not open
    or a chunk file could not be saved; with the stream open and every save
    succeeding the loop is left waiting for the next frame.

    [process_chunk] and the real-time [main]: an exception of the diarizer
    leaves [process_chunk] with nothing emitted, one of Whisper leaves it
    with the segments of the turns before; [main], which catches
    [KeyboardInterrupt] only, ends at the first window on which
    [process_chunk] raises, the later windows unprocessed, and goes
    through every window when none raises.

    [process_audio_file]: an exception of the diarizer, of the encoder or
    of Whisper leaves the function, with the lines printed before it. *)
Theorem adapter_failure_effects {A B Emb}
    (chunk_samples k : nat) (env env' : Capture.Env A) (stream_opens : bool)
    (fuel : nat) (frames : list (list A))
    (pipeline : list B -> Py.result (list Turn))
    (transcribe : list B -> Py.result Transcription)
    (cdist_cosine : Emb -> Emb -> float)
    (embed_utterance : list spec_float -> Py.result Emb)
    (transcribe32 : list spec_float -> Py.result Transcription)
    (strip : string -> string) :
  Capture.agree_except k env env' ->
  (forall c, exists e, Capture.predict env k c = Py.Raise e) ->
  ((forall st,
      Capture.final (Capture.main chunk_samples env stream_opens fuel frames) = Some st ->
      Capture.results_for k (Capture.printed st) = []) /\
   Capture.same_run k (Capture.main chunk_samples env stream_opens fuel frames)
                      (Capture.main chunk_samples env' stream_opens fuel frames) /\
   (forall st, Capture.main chunk_samples env stream_opens fuel frames = Capture.Fatal st ->
               stream_opens = false \/ exists i, Capture.save_ok env i = false) /\
   (0 < chunk_samples -> stream_opens = true ->
    (forall i, Capture.save_ok env i = true) ->
    length (concat frames) < fuel ->
    exists st, Capture.main chunk_samples env stream_opens fuel frames = Capture.Waiting st)) /\
  ((forall w sr e,
      pipeline w = Py.Raise e ->
      Realtime.process_chunk pipeline transcribe strip w sr = ([], Some e)) /\
   (forall w sr before turn after segment e,
      pipeline w = Py.Ok (before ++ turn :: after) ->
      Forall (Realtime.turn_goes_through transcribe w sr) before ->
      turn_segment w sr turn = Py.Ok segment ->
      (sr / 2 <= Z.of_nat (length segment))%Z ->
      transcribe segment = Py.Raise e ->
      Realtime.process_chunk pipeline transcribe strip w sr
      = (omap (Realtime.emitted_for transcribe strip w sr) before, Some e))) /\
  ((forall rframes n w results e,
      RealtimeWindows.windows rframes [] !! n = Some w ->
      (forall i v, i < n -> RealtimeWindows.windows rframes [] !! i = Some v ->
         (Realtime.process_chunk pipeline transcribe strip v Realtime.SAMPLE_RATE).2 = None) ->
      Realtime.process_chunk pipeline transcribe strip w Realtime.SAMPLE_RATE
      = (results, Some e) ->
      Realtime.main pipeline transcribe strip rframes
      = Realtime.Crashed e
          (map (fun v => (Realtime.process_chunk pipeline transcribe strip v
                            Realtime.SAMPLE_RATE).1)
               (take (S n) (RealtimeWindows.windows rframes [])))) /\
   (forall rframes,
      (forall v, v ∈ RealtimeWindows.windows rframes [] ->
         (Realtime.process_chunk pipeline transcribe strip v Realtime.SAMPLE_RATE).2 = None) ->
      Realtime.main pipeline transcribe strip rframes
      = Realtime.Listening (RealtimeWindows.leftover rframes [])
          (map (fun v => (Realtime.process_chunk pipeline transcribe strip v
                            Realtime.SAMPLE_RATE).1)
               (RealtimeWindows.windows rframes [])))) /\
  ((forall dir listing reg sr audio e,
      Registry.load_enrolled_speakers dir listing = Py.Ok reg ->
      FilePipeline.process_audio_file cdist_cosine embed_utterance transcribe32 strip
        dir listing (Py.Raise e) sr audio = ([], Some e)) /\
   (forall dir listing reg sr audio samples before turn after segment e,
      Registry.load_enrolled_speakers dir listing = Py.Ok reg ->
      FilePipeline.normalize (FilePipeline.first_channel audio) = Py.Ok samples ->
      Forall (FilePipeline.turn_goes_through embed_utterance transcribe32 samples sr) before ->
      turn_segment samples sr turn = Py.Ok segment ->
      (sr <= Z.of_nat (length segment))%Z ->
      embed_utterance segment = Py.Raise e \/
      ((exists embedding, embed_utterance segment = Py.Ok embedding) /\
       transcribe32 segment = Py.Raise e) ->
      FilePipeline.process_audio_file cdist_cosine embed_utterance transcribe32 strip
        dir listing (Py.Ok (before ++ turn :: after)) sr audio
      = (omap (FilePipeline.printed_for cdist_cosine embed_utterance transcribe32 strip
                 samples sr reg) before, Some e))).
Proof.
  intros Hagree Hraise. split; [|split; [|split]].
  - unfold Capture.main. destruct stream_opens.
    + repeat split.
      * intros st Hfin.
        by rewrite (CaptureFacts.feed_results chunk_samples k env fuel frames Capture.init st).
      * apply CaptureFacts.feed_same; [exact Hagree|by repeat split].
      * intros st Hfatal. right.
        by apply (CaptureFacts.feed_fatal chunk_samples env fuel frames Capture.init st).
      * intros Hpos _ Hsave Hfuel.
        destruct (CaptureFacts.main_waits chunk_samples Hpos env fuel frames Hsave Hfuel)
          as (st & Hrun & _).
        by exists st.
    + repeat split.
      * by intros st [= <-].
      * by left.
      * discriminate.
  - split.
    + intros w sr e Hd. unfold Realtime.process_chunk. by rewrite Hd.
    + intros w sr before turn after segment e Hd Hall Hseg Hkeep Htr.
      unfold Realtime.process_chunk. rewrite Hd.
      by rewrite (realtime_turns_raise transcribe strip w sr before after turn segment e []).
  - split.
    + intros rframes n w results e Hw Hbefore Hpc. unfold Realtime.main.
      by rewrite (main_loop_crash pipeline transcribe strip rframes [] [] n w results e).
    + intros rframes Hall. unfold Realtime.main.
      by rewrite (main_loop_listens pipeline transcribe strip rframes [] []).
  - split.
    + intros dir listing reg sr audio e Hload. unfold FilePipeline.process_audio_file.
      by rewrite Hload.
    + intros dir listing reg sr audio samples before turn after segment e
        Hload Hnorm Hall Hseg Hkeep Hr.
      unfold FilePipeline.process_audio_file. rewrite Hload, Hnorm.
      by rewrite (file_turns_raise cdist_cosine embed_utterance transcribe32 strip
                    samples sr reg before after turn segment e []).
Qed.

Lemma adapter_failure_effects_witness :
  ((forall st,
      Capture.final (Capture.main 3 CaptureExamples.env_fail1 true 8 CaptureExamples.frames) = Some st ->
      Capture.results_for 1 (Capture.printed st) = []) /\
   Capture.same_run 1 (Capture.main 3 CaptureExamples.env_fail1 true 8 CaptureExamples.frames)
                      (Capture.main 3 CaptureExamples.env_ok true 8 CaptureExamples.frames) /\
   (forall st, Capture.main 3 CaptureExamples.env_fail1 true 8 CaptureExamples.frames = Capture.Fatal st ->
               true = false \/ exists i, Capture.save_ok CaptureExamples.env_fail1 i = false) /\
   (0 < 3 -> true = true ->
    (forall i, Capture.save_ok CaptureExamples.env_fail1 i = true) ->
    length (concat CaptureExamples.frames) < 8 ->
    exists st, Capture.main 3 CaptureExamples.env_fail1 true 8 CaptureExamples.frames = Capture.Waiting st)) /\
  ((forall w sr e,
      RealtimeExamples.diarizer_down w = Py.Raise e ->
      Realtime.process_chunk RealtimeExamples.diarizer_down RealtimeExamples.whisper RealtimeExamples.no_strip w sr = ([], Some e)) /\
   (forall w sr before turn after segment e,
      RealtimeExamples.diarizer_down w = Py.Ok (before ++ turn :: after) ->
      Forall (Realtime.turn_goes_through RealtimeExamples.whisper w sr) before ->
      turn_segment w sr turn = Py.Ok segment ->
      (sr / 2 <= Z.of_nat (length segment))%Z ->
      RealtimeExamples.whisper segment = Py.Raise e ->
      Realtime.process_chunk RealtimeExamples.diarizer_down RealtimeExamples.whisper RealtimeExamples.no_strip w sr
      = (omap (Realtime.emitted_for RealtimeExamples.whisper RealtimeExamples.no_strip w sr) before, Some e))) /\
  ((forall rframes n w results e,
      RealtimeWindows.windows rframes [] !! n = Some w ->
      (forall i v, i < n -> RealtimeWindows.windows rframes [] !! i = Some v ->
         (Realtime.process_chunk RealtimeExamples.diarizer_down RealtimeExamples.whisper RealtimeExamples.no_strip v Realtime.SAMPLE_RATE).2 = None) ->
      Realtime.process_chunk RealtimeExamples.diarizer_down RealtimeExamples.whisper RealtimeExamples.no_strip w Realtime.SAMPLE_RATE
      = (results, Some e) ->
      Realtime.main RealtimeExamples.diarizer_down RealtimeExamples.whisper RealtimeExamples.no_strip rframes
      = Realtime.Crashed e
          (map (fun v => (Realtime.process_chunk RealtimeExamples.diarizer_down RealtimeExamples.whisper RealtimeExamples.no_strip v
                            Realtime.SAMPLE_RATE).1)
               (take (S n) (RealtimeWindows.windows rframes [])))) /\
   (forall rframes,
      (forall v, v ∈ RealtimeWindows.windows rframes [] ->
         (Realtime.process_chunk RealtimeExamples.diarizer_down RealtimeExamples.whisper RealtimeExamples.no_strip v Realtime.SAMPLE_RATE).2 = None) ->
      Realtime.main RealtimeExamples.diarizer_down RealtimeExamples.whisper RealtimeExamples.no_strip rframes
      = Realtime.Listening (RealtimeWindows.leftover rframes [])
          (map (fun v => (Realtime.process_chunk RealtimeExamples.diarizer_down RealtimeExamples.whisper RealtimeExamples.no_strip v
                            Realtime.SAMPLE_RATE).1)
               (RealtimeWindows.windows rframes [])))) /\
  ((forall dir listing reg sr audio e,
      Registry.load_enrolled_speakers dir listing = Py.Ok reg ->
      FilePipeline.process_audio_file RegistryExamples.cosine RealtimeExamples.encoder RealtimeExamples.whisper32 RealtimeExamples.no_strip
        dir listing (Py.Raise e) sr audio = ([], Some e)) /\
   (forall dir listing reg sr audio samples before turn after segment e,
      Registry.load_enrolled_speakers dir listing = Py.Ok reg ->
      FilePipeline.normalize (FilePipeline.first_channel audio) = Py.Ok samples ->
      Forall (FilePipeline.turn_goes_through RealtimeExamples.encoder RealtimeExamples.whisper32 samples sr) before ->
      turn_segment samples sr turn = Py.Ok segment ->
      (sr <= Z.of_nat (length segment))%Z ->
      RealtimeExamples.encoder segment = Py.Raise e \/
      ((exists embedding, RealtimeExamples.encoder segment = Py.Ok embedding) /\
       RealtimeExamples.whisper32 segment = Py.Raise e) ->
      FilePipeline.process_audio_file RegistryExamples.cosine RealtimeExamples.encoder RealtimeExamples.whisper32 RealtimeExamples.no_strip
        dir listing (Py.Ok (before ++ turn :: after)) sr audio
      = (omap (FilePipeline.printed_for RegistryExamples.cosine RealtimeExamples.encoder RealtimeExamples.whisper32 RealtimeExamples.no_strip
                 samples sr reg) before, Some e))).
Proof.
  apply (adapter_failure_effects 3 1 CaptureExamples.env_fail1 CaptureExamples.env_ok
           true 8 CaptureExamples.frames
           RealtimeExamples.diarizer_down RealtimeExamples.whisper
           RegistryExamples.cosine RealtimeExamples.encoder RealtimeExamples.whisper32
           RealtimeExamples.no_strip).
  - repeat split; intros; simpl; try reflexivity.
    destruct i as [|[|i]]; simpl; try reflexivity. contradiction.
  - intros c. exists "timeout"%string. reflexivity.
Defined.

End FailureFacts.
